(** * ConvoQuest: chat and quiz session logic of [app.py]

    A shallow embedding of the Streamlit script [app.py]: the Gemini
    gateway helper [get_gemini_response], the response sanitizer
    [clean_json_response], the session state and the three tabs of the
    page, followed by the properties proved about them.

    Python values are modelled by the type [value]; a script run is a
    computation in a state-and-exception monad over the session state
    that also records what the run shows to the user and sends to the
    model. The page is modelled first, on a session state that is
    initialised; the configuration block and the initialisation of the
    session state at the head of the script follow. *)

From Stdlib Require Import ZArith NArith List String Ascii Bool Lia.
From Stdlib Require Import Floats.SpecFloat.
From stdpp Require Import base option list gmap.

Local Open Scope Z_scope.

(** ** Python strings

    A Python [str] is a sequence of Unicode code points. *)

Abbreviation str := (list N).

(** Literals: the code points of an ASCII string of the development. *)
Definition lit (s : string) : str :=
  map N_of_ascii (list_ascii_of_string s).

(** Literals in which an apostrophe stands for a double quote, used to
    write JSON texts. *)
Definition qlit (s : string) : str :=
  map (fun c => if N.eqb c 39 then 34%N else c) (lit s).

Definition str_eqb (a b : str) : bool := bool_decide (a = b).

(** [s.find(c)] for a one-character needle: lowest index, or [-1]. *)
Fixpoint find (c : N) (s : str) : Z :=
  match s with
  | [] => -1
  | x :: r =>
      if N.eqb x c then 0
      else let k := find c r in if k =? -1 then -1 else k + 1
  end.

(** [s.rfind(c)] for a one-character needle: highest index, or [-1]. *)
Fixpoint rfind (c : N) (s : str) : Z :=
  match s with
  | [] => -1
  | x :: r =>
      let k := rfind c r in
      if k =? -1 then (if N.eqb x c then 0 else -1) else k + 1
  end.

(** Slice bounds as Python normalises them: a negative bound counts from
    the end, and both are clamped to [0 .. len]. *)
Definition slice_bound (len i : Z) : nat :=
  Z.to_nat (if i <? 0 then Z.max 0 (i + len) else Z.min i len).

(** [s[lo:hi]] *)
Definition py_slice {A} (s : list A) (lo hi : Z) : list A :=
  let n := Z.of_nat (length s) in
  drop (slice_bound n lo) (take (slice_bound n hi) s).

Fixpoint starts_with (p s : str) : bool :=
  match p, s with
  | [], _ => true
  | _ :: _, [] => false
  | a :: p', b :: s' => N.eqb a b && starts_with p' s'
  end.

(** [p in s] for two strings: substring test. *)
Fixpoint str_contains (p s : str) : bool :=
  starts_with p s ||
  match s with
  | [] => false
  | _ :: r => str_contains p r
  end.

(** ** Python values

    The values the script handles: [None], booleans, integers, floats,
    strings, lists and dictionaries with string keys (insertion
    ordered, keys unique). These are the values [json.loads] builds. *)

#[local] Set Warnings "-register-all".

Inductive value :=
| VNone
| VBool (b : bool)
| VInt (n : Z)
| VFloat (f : spec_float)
| VStr (s : str)
| VList (l : list value)
| VDict (d : list (str * value)).

(** Exceptions that can travel through the script. [RerunException] is
    what [st.rerun()] raises to stop the current run; it is not an
    [Exception] subclass. *)
Inductive exn :=
| TypeError
| KeyError
| IndexError
| JSONDecodeError
| RecursionError
| StopIteration
| RerunException.

Definition is_Exception (e : exn) : bool :=
  match e with RerunException => false | _ => true end.

Inductive result (A : Type) :=
| Ok (a : A)
| Raise (e : exn).
Arguments Ok {A} a.
Arguments Raise {A} e.

Definition rbind {A B} (r : result A) (k : A -> result B) : result B :=
  match r with
  | Ok a => k a
  | Raise e => Raise e
  end.

Declare Scope result_scope.
Delimit Scope result_scope with result.
Notation "'let!' x := r 'in' k" := (rbind r (fun x => k))
  (at level 10, x name, r at level 100, k at level 200) : result_scope.

(** *** Dictionaries *)

Fixpoint dict_get (k : str) (d : list (str * value)) : option value :=
  match d with
  | [] => None
  | (k', v) :: r => if str_eqb k k' then Some v else dict_get k r
  end.

(** [d[k] = v]: an existing key keeps its position. *)
Fixpoint dict_set (k : str) (v : value) (d : list (str * value))
  : list (str * value) :=
  match d with
  | [] => [(k, v)]
  | (k', v') :: r =>
      if str_eqb k k' then (k, v) :: r else (k', v') :: dict_set k v r
  end.

(** [dict(pairs)] *)
Definition dict_of_pairs (pairs : list (str * value)) : list (str * value) :=
  foldl (fun d kv => dict_set (fst kv) (snd kv) d) [] pairs.

(** *** Equality [==]

    [bool] is a subclass of [int]; integers and floats compare by their
    exact numeric value; a NaN is unequal to everything. Containers
    compare their elements with "identical or equal"; the only objects
    of this program for which that differs from [==] are NaNs, which
    [json] decodes to one shared object. *)

Definition float_prec : Z := 53.
Definition float_emax : Z := 1024.

Definition float_eq_int (f : spec_float) (n : Z) : bool :=
  match f with
  | S754_zero _ => n =? 0
  | S754_finite s m e =>
      let m' := if s then Z.neg m else Z.pos m in
      if 0 <=? e then n =? m' * 2 ^ e else m' =? n * 2 ^ (- e)
  | _ => false
  end.

Inductive number :=
| NumInt (n : Z)
| NumFloat (f : spec_float).

Definition as_number (v : value) : option number :=
  match v with
  | VBool b => Some (NumInt (if b then 1 else 0))
  | VInt n => Some (NumInt n)
  | VFloat f => Some (NumFloat f)
  | _ => None
  end.

Definition number_eqb (a b : number) : bool :=
  match a, b with
  | NumInt x, NumInt y => x =? y
  | NumFloat f, NumFloat g => SFeqb f g
  | NumInt x, NumFloat f | NumFloat f, NumInt x => float_eq_int f x
  end.

Definition is_nan (v : value) : bool :=
  match v with VFloat S754_nan => true | _ => false end.

Fixpoint py_eq (a b : value) {struct a} : bool :=
  match a, b with
  | VNone, VNone => true
  | VStr s, VStr t => str_eqb s t
  | VList l, VList m =>
      (fix go (l m : list value) {struct l} : bool :=
         match l, m with
         | [], [] => true
         | x :: l', y :: m' => (is_nan x && is_nan y || py_eq x y) && go l' m'
         | _, _ => false
         end) l m
  | VDict d, VDict d' =>
      (length d =? length d')%nat &&
      (fix go (d : list (str * value)) {struct d} : bool :=
         match d with
         | [] => true
         | (k, x) :: r =>
             match dict_get k d' with
             | Some y => (is_nan x && is_nan y || py_eq x y) && go r
             | None => false
             end
         end) d
  | _, _ =>
      match as_number a, as_number b with
      | Some x, Some y => number_eqb x y
      | _, _ => false
      end
  end.

(** *** Truth value, membership, subscription *)

Definition py_truthy (v : value) : bool :=
  match v with
  | VNone => false
  | VBool b => b
  | VInt n => negb (n =? 0)
  | VFloat (S754_zero _) => false
  | VFloat _ => true
  | VStr s => negb (bool_decide (s = []))
  | VList l => negb (bool_decide (l = []))
  | VDict d => negb (bool_decide (d = []))
  end.

(** [k in v] for a string [k]: key test on a dictionary, element test on
    a list, substring test on a string; other values are not
    containers. *)
Definition py_in (k : str) (v : value) : result bool :=
  match v with
  | VDict d => Ok (bool_decide (is_Some (dict_get k d)))
  | VList l => Ok (existsb (py_eq (VStr k)) l)
  | VStr s => Ok (str_contains k s)
  | _ => Raise TypeError
  end.

(** [v[k]] for a string [k]. *)
Definition py_getitem (v : value) (k : str) : result value :=
  match v with
  | VDict d =>
      match dict_get k d with
      | Some x => Ok x
      | None => Raise KeyError
      end
  | _ => Raise TypeError
  end.

(** [isinstance(v, list)] *)
Definition is_list (v : value) : bool :=
  match v with VList _ => true | _ => false end.

(** The items a [for] loop over [v] visits. *)
Definition py_iter (v : value) : result (list value) :=
  match v with
  | VList l => Ok l
  | VDict d => Ok (map (fun kv => VStr (fst kv)) d)
  | VStr s => Ok (map (fun c => VStr [c]) s)
  | _ => Raise TypeError
  end.

(** [enumerate(l)] *)
Definition enumerate {A} (l : list A) : list (nat * A) := imap pair l.

(** ** [json.loads]

    The decoder of Python's [json] module with its default settings:
    [scan_once] with the array and object loops of [JSONArray] and
    [JSONObject], [scanstring] in strict mode, the number pattern (an optional minus
    sign, then 0 or a digit string without leading zero, then an
    optional fraction, then an optional exponent) and the constants
    [NaN], [Infinity] and [-Infinity]. The functions work on the text
    that remains to be read; the positions that only feed error
    messages are not kept.

    Two limits of the interpreter are not part of this decoder: the
    limit on the number of digits of an integer literal, beyond which
    the interpreter raises [ValueError], and the recursion limit,
    beyond which it raises [RecursionError]. On a text beyond them
    the interpreter raises where this decoder goes on, and
    [clean_json_response] then returns [None] through its handler for
    other exceptions. *)

Local Open Scope result_scope.

Definition is_ws (c : N) : bool :=
  N.eqb c 32 || N.eqb c 9 || N.eqb c 10 || N.eqb c 13.

Fixpoint skip_ws (s : str) : str :=
  match s with
  | c :: r => if is_ws c then skip_ws r else s
  | [] => []
  end.

Definition is_digit (c : N) : bool := N.leb 48 c && N.leb c 57.

Definition hex_digit (c : N) : option N :=
  if N.leb 48 c && N.leb c 57 then Some (c - 48)%N
  else if N.leb 65 c && N.leb c 70 then Some (c - 55)%N
  else if N.leb 97 c && N.leb c 102 then Some (c - 87)%N
  else None.

(** The four hexadecimal digits of a [\uXXXX] escape. *)
Definition decode_uXXXX (a b c d : N) : result N :=
  match hex_digit a, hex_digit b, hex_digit c, hex_digit d with
  | Some x, Some y, Some z, Some w =>
      Ok (((x * 16 + y) * 16 + z) * 16 + w)%N
  | _, _, _, _ => Raise JSONDecodeError
  end.

Definition backslash (c : N) : option N :=
  if N.eqb c 34 then Some 34%N          (* quote *)
  else if N.eqb c 92 then Some 92%N     (* backslash *)
  else if N.eqb c 47 then Some 47%N     (* slash *)
  else if N.eqb c 98 then Some 8%N      (* b *)
  else if N.eqb c 102 then Some 12%N    (* f *)
  else if N.eqb c 110 then Some 10%N    (* n *)
  else if N.eqb c 114 then Some 13%N    (* r *)
  else if N.eqb c 116 then Some 9%N     (* t *)
  else None.

Definition is_high_surrogate (u : N) : bool := N.leb 55296 u && N.leb u 56319.
Definition is_low_surrogate (u : N) : bool := N.leb 56320 u && N.leb u 57343.

(** [scanstring], entered after the opening quote: the decoded string
    and the text after the closing quote. *)
Fixpoint scanstring (s : str) (acc : str) {struct s} : result (str * str) :=
  match s with
  | [] => Raise JSONDecodeError
  | c :: r =>
      if N.eqb c 34 then Ok (acc, r)
      else if N.eqb c 92 then
        match r with
        | [] => Raise JSONDecodeError
        | esc :: r1 =>
            if N.eqb esc 117 then
              match r1 with
              | h1 :: h2 :: h3 :: h4 :: r2 =>
                  match decode_uXXXX h1 h2 h3 h4 with
                  | Raise e => Raise e
                  | Ok uni =>
                      match r2 with
                      | 92%N :: 117%N :: r3 =>
                          if is_high_surrogate uni then
                            match r3 with
                            | g1 :: g2 :: g3 :: g4 :: r4 =>
                                match decode_uXXXX g1 g2 g3 g4 with
                                | Raise e => Raise e
                                | Ok uni2 =>
                                    if is_low_surrogate uni2 then
                                      scanstring r4
                                        (acc ++ [65536 + (uni - 55296) * 1024
                                                 + (uni2 - 56320)])%N
                                    else scanstring r2 (acc ++ [uni])
                                end
                            | _ => Raise JSONDecodeError
                            end
                          else scanstring r2 (acc ++ [uni])
                      | _ => scanstring r2 (acc ++ [uni])
                      end
                  end
              | _ => Raise JSONDecodeError
              end
            else
              match backslash esc with
              | Some ch => scanstring r1 (acc ++ [ch])
              | None => Raise JSONDecodeError
              end
        end
      else if N.ltb c 32 then Raise JSONDecodeError
      else scanstring r (acc ++ [c])
  end.

(** Leading decimal digits of a text, and the rest. *)
Fixpoint span_digits (s : str) : str * str :=
  match s with
  | c :: r =>
      if is_digit c then let '(ds, r') := span_digits r in (c :: ds, r')
      else ([], s)
  | [] => ([], [])
  end.

Definition digits_value (ds : str) : Z :=
  foldl (fun a c => 10 * a + Z.of_N (c - 48)) 0 ds.

(** What the number pattern matches at the head of a text: sign, integer
    digits, optional fraction digits, optional signed exponent. *)
Record number_match := {
  nm_neg : bool;
  nm_int : str;
  nm_frac : option str;
  nm_exp : option Z;
  nm_rest : str
}.

Definition match_exp (s : str) : option Z * str :=
  match s with
  | c :: r =>
      if N.eqb c 101 || N.eqb c 69 then
        let '(neg, r1) :=
          match r with
          | 45%N :: r' => (true, r')
          | 43%N :: r' => (false, r')
          | _ => (false, r)
          end in
        match span_digits r1 with
        | ([], _) => (None, s)
        | (ds, r2) =>
            (Some (if neg then - digits_value ds else digits_value ds), r2)
        end
      else (None, s)
  | [] => (None, s)
  end.

Definition match_frac (s : str) : option str * str :=
  match s with
  | 46%N :: r =>
      match span_digits r with
      | ([], _) => (None, s)
      | (ds, r') => (Some ds, r')
      end
  | _ => (None, s)
  end.

Definition match_number (s : str) : option number_match :=
  let '(neg, s1) :=
    match s with
    | 45%N :: r => (true, r)
    | _ => (false, s)
    end in
  match s1 with
  | c :: r =>
      if is_digit c then
        let '(ds, r1) :=
          if N.eqb c 48 then ([c], r)
          else let '(ds, r1) := span_digits r in (c :: ds, r1) in
        let '(frac, r2) := match_frac r1 in
        let '(ex, r3) := match_exp r2 in
        Some {| nm_neg := neg; nm_int := ds; nm_frac := frac;
                nm_exp := ex; nm_rest := r3 |}
      else None
  | [] => None
  end.

(** [float(text)]: the binary64 number nearest to [m * 10^e], ties to
    even. *)
Definition float_of_decimal (neg : bool) (m e : Z) : spec_float :=
  match m with
  | Z.pos p =>
      if 0 <=? e then
        binary_round float_prec float_emax neg (p * Z.to_pos (10 ^ e)) 0
      else
        SFdiv float_prec float_emax
          (S754_finite neg p 0)
          (S754_finite false (Z.to_pos (10 ^ (- e))) 0)
  | _ => S754_zero neg
  end.

Definition number_value (m : number_match) : value :=
  match nm_frac m, nm_exp m with
  | None, None =>
      let n := digits_value (nm_int m) in
      VInt (if nm_neg m then - n else n)
  | frac, ex =>
      let fd := default [] frac in
      VFloat (float_of_decimal (nm_neg m)
                (digits_value (nm_int m ++ fd))
                (default 0 ex - Z.of_nat (length fd)))
  end.

(** [scan_once] and the loops of [JSONArray] and [JSONObject]. The
    loops are entered at the first element, respectively just after the
    opening quote of the first key. [fuel] bounds the number of nested
    calls; the recursion limit of the interpreter is not modelled, and
    [json_loads] starts with fuel that no text uses up. *)
Fixpoint scan_once (fuel : nat) (s : str) {struct fuel}
  : result (value * str) :=
  match fuel with
  | O => Raise RecursionError
  | S fuel' =>
      match s with
      | [] => Raise StopIteration
      | c :: rest =>
          if N.eqb c 34 then
            let! tr := scanstring rest [] in Ok (VStr (fst tr), snd tr)
          else if N.eqb c 123 then
            match skip_ws rest with
            | 125%N :: r => Ok (VDict [], r)
            | 34%N :: r => object_loop fuel' r []
            | _ => Raise JSONDecodeError
            end
          else if N.eqb c 91 then
            match skip_ws rest with
            | 93%N :: r => Ok (VList [], r)
            | s1 => array_loop fuel' s1 []
            end
          else if starts_with (lit "null") s then Ok (VNone, drop 4 s)
          else if starts_with (lit "true") s then Ok (VBool true, drop 4 s)
          else if starts_with (lit "false") s then Ok (VBool false, drop 5 s)
          else
            match match_number s with
            | Some m => Ok (number_value m, nm_rest m)
            | None =>
                if starts_with (lit "NaN") s then
                  Ok (VFloat S754_nan, drop 3 s)
                else if starts_with (lit "Infinity") s then
                  Ok (VFloat (S754_infinity false), drop 8 s)
                else if starts_with (lit "-Infinity") s then
                  Ok (VFloat (S754_infinity true), drop 9 s)
                else Raise StopIteration
            end
      end
  end
with array_loop (fuel : nat) (s : str) (values : list value) {struct fuel}
  : result (value * str) :=
  match fuel with
  | O => Raise RecursionError
  | S fuel' =>
      match scan_once fuel' s with
      | Raise StopIteration => Raise JSONDecodeError
      | Raise e => Raise e
      | Ok (v, r) =>
          match skip_ws r with
          | 93%N :: r' => Ok (VList (values ++ [v]), r')
          | 44%N :: r' => array_loop fuel' (skip_ws r') (values ++ [v])
          | _ => Raise JSONDecodeError
          end
      end
  end
with object_loop (fuel : nat) (s : str) (pairs : list (str * value))
  {struct fuel} : result (value * str) :=
  match fuel with
  | O => Raise RecursionError
  | S fuel' =>
      let! kr := scanstring s [] in
      match skip_ws (snd kr) with
      | 58%N :: r1 =>
          match scan_once fuel' (skip_ws r1) with
          | Raise StopIteration => Raise JSONDecodeError
          | Raise e => Raise e
          | Ok (v, r2) =>
              let pairs' := pairs ++ [(fst kr, v)] in
              match skip_ws r2 with
              | 125%N :: r3 => Ok (VDict (dict_of_pairs pairs'), r3)
              | 44%N :: r3 =>
                  match skip_ws r3 with
                  | 34%N :: r4 => object_loop fuel' r4 pairs'
                  | _ => Raise JSONDecodeError
                  end
              | _ => Raise JSONDecodeError
              end
          end
      | _ => Raise JSONDecodeError
      end
  end.

(** [json.loads(s)] for a [str] argument. *)
Definition json_loads (s : str) : result value :=
  if starts_with [65279%N] s then Raise JSONDecodeError
  else
    match scan_once (S (2 * length s)) (skip_ws s) with
    | Raise StopIteration => Raise JSONDecodeError
    | Raise e => Raise e
    | Ok (v, r) =>
        match skip_ws r with
        | [] => Ok v
        | _ => Raise JSONDecodeError
        end
    end.

Local Close Scope result_scope.

(** ** Session state, gateway and the script monad *)

Inductive role_t := user | model.

(** One entry of [st.session_state.chat_history]:
    [{"role": ..., "parts": [...]}]. *)
Record turn := {
  role : role_t;
  parts : list str
}.

Record session_state := {
  chat_history : list turn;
  quiz_questions : value;
  user_answers : gmap nat value;
  quiz_score : option Z
}.

(** The state after the initialisation block of the first run. *)
Definition initial_state : session_state := {|
  chat_history := [];
  quiz_questions := VList [];
  user_answers := ∅;
  quiz_score := None
|}.

(** [quiz_schema] and [json_generation_config]. *)
Definition quiz_schema : value :=
  VDict [
    (lit "type", VStr (lit "ARRAY"));
    (lit "items", VDict [
      (lit "type", VStr (lit "OBJECT"));
      (lit "properties", VDict [
        (lit "question", VDict [(lit "type", VStr (lit "STRING"))]);
        (lit "options", VDict [
          (lit "type", VStr (lit "ARRAY"));
          (lit "items", VDict [(lit "type", VStr (lit "STRING"))])]);
        (lit "correct_answer", VDict [(lit "type", VStr (lit "STRING"))])]);
      (lit "required",
       VList [VStr (lit "question"); VStr (lit "options");
              VStr (lit "correct_answer")])])].

Record generation_config := {
  response_mime_type : str;
  response_schema : value
}.

Definition json_generation_config : generation_config := {|
  response_mime_type := lit "application/json";
  response_schema := quiz_schema
|}.

(** A call of the Gemini client: [model.start_chat(history=h)
    .send_message(prompt)], or [model.generate_content(prompt,
    generation_config=config)]. *)
Inductive request :=
| SendMessage (history : list turn) (prompt : str)
| GenerateContent (prompt : str) (config : option generation_config).

(** What reading [response.text] after the call gives: the text, or an
    exception with its message. *)
Inductive reply :=
| Text (t : str)
| ApiError (details : str).

(** The external service, as seen by one run of the script. *)
Definition gemini := request -> reply.

(** The contents a request puts on the wire. A chat session sends its
    history followed by the new message as a user turn;
    [generate_content] sends the prompt alone. *)
Definition delivered_contents (r : request) : list turn :=
  match r with
  | SendMessage history prompt =>
      history ++ [{| role := user; parts := [prompt] |}]
  | GenerateContent prompt _ => [{| role := user; parts := [prompt] |}]
  end.

(** Texts of [st.error], by call site. *)
Inductive error_message :=
| GeminiApiError (details : str)
| QuizParseFailed
| QuizParseUnexpected (e : exn)
| NoValidQuizData
| SkippingMalformedQuestion (number : nat) (data : value).

(** What a run does besides changing the session state. *)
Inductive event :=
| Call (r : request)
| Print (raw : str)
| StError (m : error_message)
| StWarningEnterTopic
| StSuccessCleared
| StInfoHistoryEmpty
| ChatMessage (who : role_t) (text : str)
| QuizSubheader (topic : str)
| Question (number : nat) (question : value) (options : value)
| ScoreHeader (score : Z) (total : nat)
| AnswerCorrect (number : nat) (answer : value)
| AnswerWrong (number : nat) (answer correct : value).

(** A computation of the script: from the session state to a result or
    an exception, the new session state, and the events of the run,
    each with the session state at the time it happened. *)
Definition M (A : Type) : Type :=
  session_state -> result A * session_state * list (session_state * event).

Definition outcome {A} (r : result A * session_state * list (session_state * event))
  : result A := r.1.1.
Definition final {A} (r : result A * session_state * list (session_state * event))
  : session_state := r.1.2.
Definition trace {A} (r : result A * session_state * list (session_state * event))
  : list (session_state * event) := r.2.

Definition mret {A} (a : A) : M A := fun s => (Ok a, s, []).

Definition mbind {A B} (m : M A) (k : A -> M B) : M B :=
  fun s =>
    match m s with
    | (Ok a, s', l) => let '(r, s'', l') := k a s' in (r, s'', l ++ l')
    | (Raise e, s', l) => (Raise e, s', l)
    end.

Definition raise {A} (e : exn) : M A := fun s => (Raise e, s, []).

Definition lift {A} (r : result A) : M A := fun s => (r, s, []).

Definition emit (e : event) : M unit := fun s => (Ok tt, s, [(s, e)]).

Definition get : M session_state := fun s => (Ok s, s, []).

Definition modify (f : session_state -> session_state) : M unit :=
  fun s => (Ok tt, f s, []).

Declare Scope script_scope.
Delimit Scope script_scope with script.
Bind Scope script_scope with M.
Notation "'let*' x := m 'in' k" := (mbind m (fun x => k))
  (at level 10, x name, m at level 100, k at level 200) : script_scope.
Notation "m ;; k" := (mbind m (fun _ => k))
  (at level 100, k at level 200, right associativity) : script_scope.

Local Open Scope script_scope.

(** [for x in l: body(x)] *)
Fixpoint mfor {A} (l : list A) (body : A -> M unit) : M unit :=
  match l with
  | [] => mret tt
  | x :: r => body x ;; mfor r body
  end.

(** A [for] loop that updates a local variable. *)
Fixpoint mfold {A B} (body : B -> A -> M B) (b : B) (l : list A) : M B :=
  match l with
  | [] => mret b
  | x :: r => let* b' := body b x in mfold body b' r
  end.

(** [st.rerun()] *)
Definition st_rerun {A} : M A := raise RerunException.

(** Assignments to the fields of [st.session_state]. *)
Definition set_chat_history (h : list turn) : M unit :=
  modify (fun s => {| chat_history := h;
                      quiz_questions := quiz_questions s;
                      user_answers := user_answers s;
                      quiz_score := quiz_score s |}).

Definition set_quiz_questions (q : value) : M unit :=
  modify (fun s => {| chat_history := chat_history s;
                      quiz_questions := q;
                      user_answers := user_answers s;
                      quiz_score := quiz_score s |}).

Definition set_user_answers (a : gmap nat value) : M unit :=
  modify (fun s => {| chat_history := chat_history s;
                      quiz_questions := quiz_questions s;
                      user_answers := a;
                      quiz_score := quiz_score s |}).

Definition set_quiz_score (sc : option Z) : M unit :=
  modify (fun s => {| chat_history := chat_history s;
                      quiz_questions := quiz_questions s;
                      user_answers := user_answers s;
                      quiz_score := sc |}).

(** [st.session_state.chat_history.append(t)] *)
Definition append_turn (t : turn) : M unit :=
  let* s := get in set_chat_history (chat_history s ++ [t]).

(** ** Helper functions of the script *)

(** [get_gemini_response(prompt, chat_history, force_json)]: the text of
    the reply, or [None] after any exception of the call, which is
    printed and shown. *)
Definition get_gemini_response (gem : gemini) (prompt : str)
    (chat_history : option (list turn)) (force_json : bool)
  : M (option str) :=
  let req :=
    match chat_history with
    | Some history => SendMessage history prompt
    | None =>
        GenerateContent prompt
          (if force_json then Some json_generation_config else None)
    end in
  emit (Call req) ;;
  match gem req with
  | Text t => mret (Some t)
  | ApiError e =>
      emit (Print (lit "--- ERROR CALLING GEMINI API ---")) ;;
      emit (Print (lit "Error: " ++ e)) ;;
      emit (Print (lit "Prompt: " ++ prompt)) ;;
      emit (Print (lit "JSON Mode: "
                   ++ lit (if force_json then "True" else "False"))) ;;
      emit (Print (lit "---------------------------------")) ;;
      emit (StError (GeminiApiError e)) ;;
      mret None
  end.

(** [clean_json_response(raw_text)]: the value decoded from the text
    between the first opening and the last closing square bracket, or
    [None]. *)
Definition clean_json_response (raw_text : str) : M value :=
  let start := find 91 raw_text in
  let end_ := rfind 93 raw_text in
  if negb (start =? -1) && negb (end_ =? -1) then
    let json_str := py_slice raw_text start (end_ + 1) in
    match json_loads json_str with
    | Ok v => mret v
    | Raise JSONDecodeError =>
        emit (StError QuizParseFailed) ;;
        emit (Print (lit "--- JSON PARSE FAILED --- " ++ [10%N]
                     ++ lit "Raw text: " ++ raw_text ++ [10%N]
                     ++ lit "-------------------------")) ;;
        mret VNone
    | Raise e =>
        if is_Exception e then
          emit (StError (QuizParseUnexpected e)) ;; mret VNone
        else raise e
    end
  else mret VNone.

(** ** The page

    What the widgets of the page return in one run of the script. A
    widget is only consulted when the run reaches it. *)
Record widgets := {
  chat_input : option str;      (* st.chat_input: None or the text sent *)
  topic : str;                  (* st.text_input *)
  generate_clicked : bool;      (* st.button("Generate Quiz") *)
  radio_choice : nat -> nat;    (* position selected in the radio of item i *)
  submit_clicked : bool;        (* st.form_submit_button *)
  retake_clicked : bool;        (* st.button("Take Another Quiz?") *)
  clear_clicked : bool          (* st.button("Clear Chat History") *)
}.

(** [st.radio(label, options)]: the selected option, the first one
    unless the user chose another, and [None] when there is none. *)
Definition st_radio (options : list value) (choice : nat) : value :=
  match options with
  | [] => VNone
  | first :: _ => nth choice options first
  end.

(** [len(v)] *)
Definition py_len (v : value) : result nat :=
  match v with
  | VList l => Ok (length l)
  | VDict d => Ok (length d)
  | VStr s => Ok (length s)
  | _ => Raise TypeError
  end.

(** The message list shown in the chat tab and in the history tab. *)
Definition show_messages : M unit :=
  let* s := get in
  mfor (chat_history s) (fun message =>
    match parts message with
    | part :: _ => emit (ChatMessage (role message) part)
    | [] => raise IndexError
    end).

(** *** Tab 1: Chatbot *)

(** Body of [if user_prompt:]. *)
Definition chat_send (gem : gemini) (user_prompt : str) : M unit :=
  emit (ChatMessage user user_prompt) ;;
  append_turn {| role := user; parts := [user_prompt] |} ;;
  let* s := get in
  let* response_text :=
    get_gemini_response gem user_prompt (Some (chat_history s)) false in
  match response_text with
  | Some (c :: t) =>
      emit (ChatMessage model (c :: t)) ;;
      append_turn {| role := model; parts := [c :: t] |} ;;
      st_rerun
  | _ => mret tt
  end.

Definition tab1 (gem : gemini) (w : widgets) : M unit :=
  show_messages ;;
  match chat_input w with
  | Some (c :: p) => chat_send gem (c :: p)
  | _ => mret tt
  end.

(** *** Tab 2: Quiz generator *)

Definition nl : str := [10%N].
Definition indent : str := lit "                ".

Definition quiz_prompt (topic : str) : str :=
  nl
  ++ indent ++ lit "Generate a 20-question multiple-choice quiz on the topic: '"
     ++ topic ++ lit "'." ++ nl
  ++ indent ++ lit "You MUST return the quiz as a valid JSON array of objects." ++ nl
  ++ indent ++ qlit "Each object must have 'question', 'options' (an array of 4 strings), and 'correct_answer'." ++ nl
  ++ indent ++ lit "You must follow this exact schema:" ++ nl
  ++ indent ++ lit "[" ++ nl
  ++ indent ++ lit "    {" ++ nl
  ++ indent ++ qlit "        'question': 'The question text'," ++ nl
  ++ indent ++ qlit "        'options': ['Option A', 'Option B', 'Option C', 'Option D']," ++ nl
  ++ indent ++ qlit "        'correct_answer': 'The text of the correct option'" ++ nl
  ++ indent ++ lit "    }" ++ nl
  ++ indent ++ lit "]" ++ nl
  ++ indent ++ lit "Do not include any text, notes, or markdown backticks outside of the main JSON array." ++ nl
  ++ indent ++ qlit "The 'options' array MUST contain exactly 4 string items." ++ nl
  ++ indent.

(** The three assignments that discard a quiz. *)
Definition clear_quiz : M unit :=
  set_quiz_questions (VList []) ;;
  set_user_answers ∅ ;;
  set_quiz_score None.

(** Body of [if st.button("Generate Quiz"):]. *)
Definition generate_quiz (gem : gemini) (w : widgets) : M unit :=
  match topic w with
  | _ :: _ =>
      clear_quiz ;;
      let* raw_response :=
        get_gemini_response gem (quiz_prompt (topic w)) None true in
      match raw_response with
      | Some (c :: r) =>
          let* q := clean_json_response (c :: r) in
          set_quiz_questions q ;;
          let* s := get in
          if negb (py_truthy (quiz_questions s)) then
            emit (StError NoValidQuizData)
          else mret tt
      | _ => mret tt
      end
  | [] => emit StWarningEnterTopic
  end.

(** The test that makes the form skip an item:
    ['question' not in q or 'options' not in q
     or not isinstance(q['options'], list)]. *)
Definition malformed_question (q : value) : result bool :=
  (let! has_q := py_in (lit "question") q in
   if negb has_q then Ok true
   else
     let! has_o := py_in (lit "options") q in
     if negb has_o then Ok true
     else
       let! o := py_getitem q (lit "options") in
       Ok (negb (is_list o)))%result.

(** One turn of the loop that draws the form; [answers] is the local
    dictionary [user_answers]. *)
Definition render_question (w : widgets) (answers : gmap nat value)
    (iq : nat * value) : M (gmap nat value) :=
  let '(i, q) := iq in
  let* bad := lift (malformed_question q) in
  if bad then
    emit (StError (SkippingMalformedQuestion (i + 1) q)) ;;
    mret answers
  else
    let* question := lift (py_getitem q (lit "question")) in
    let* options := lift (py_getitem q (lit "options")) in
    emit (Question (i + 1) question options) ;;
    let* shown := lift (py_iter options) in
    mret (<[i := st_radio shown (radio_choice w i)]> answers).

(** One turn of the grading loop. *)
Definition grade_question (score : Z) (iq : nat * value) : M Z :=
  let '(i, q) := iq in
  let* s := get in
  match user_answers s !! i with
  | Some answer =>
      let* has_c := lift (py_in (lit "correct_answer") q) in
      if has_c then
        let* correct := lift (py_getitem q (lit "correct_answer")) in
        mret (if py_eq answer correct then score + 1 else score)
      else mret score
  | None => mret score
  end.

(** Body of [if submit_button:]. *)
Definition submit_answers (answers : gmap nat value) : M unit :=
  set_user_answers answers ;;
  let* s := get in
  let* items := lift (py_iter (quiz_questions s)) in
  let* score := mfold grade_question 0 (enumerate items) in
  set_quiz_score (Some score) ;;
  st_rerun.

(** The loop that draws the questions of the form and collects the
    selected options. *)
Definition render_form (w : widgets) : M (gmap nat value) :=
  let* s := get in
  let* items := lift (py_iter (quiz_questions s)) in
  mfold (render_question w) ∅ (enumerate items).

(** Body of [if st.session_state.quiz_questions:], the quiz form. *)
Definition quiz_form (w : widgets) : M unit :=
  emit (QuizSubheader (match topic w with
                       | [] => lit "your topic"
                       | t => t
                       end)) ;;
  let* answers := render_form w in
  if submit_clicked w then submit_answers answers else mret tt.

(** One turn of the loop that lists the graded answers. *)
Definition show_answer (iq : nat * value) : M unit :=
  let '(i, q) := iq in
  let* s := get in
  match user_answers s !! i with
  | None => mret tt
  | Some user_ans =>
      let* has_c := lift (py_in (lit "correct_answer") q) in
      if negb has_c then mret tt
      else
        let* has_q := lift (py_in (lit "question") q) in
        if negb has_q then mret tt
        else
          let* correct_ans := lift (py_getitem q (lit "correct_answer")) in
          if py_eq user_ans correct_ans then
            emit (AnswerCorrect (i + 1) user_ans)
          else emit (AnswerWrong (i + 1) user_ans correct_ans)
  end.

(** Body of [if st.button("Take Another Quiz?"):]. *)
Definition take_another_quiz : M unit :=
  clear_quiz ;; st_rerun.

(** Body of [if st.session_state.quiz_score is not None:]. *)
Definition show_score (w : widgets) (score : Z) : M unit :=
  let* s := get in
  let* total := lift (py_len (quiz_questions s)) in
  emit (ScoreHeader score total) ;;
  let* items := lift (py_iter (quiz_questions s)) in
  mfor (enumerate items) show_answer ;;
  if retake_clicked w then take_another_quiz else mret tt.

Definition tab2 (gem : gemini) (w : widgets) : M unit :=
  (if generate_clicked w then generate_quiz gem w else mret tt) ;;
  (let* s := get in
   if py_truthy (quiz_questions s) then quiz_form w else mret tt) ;;
  let* s := get in
  match quiz_score s with
  | Some score => show_score w score
  | None => mret tt
  end.

(** *** Tab 3: Chat history *)
Definition tab3 (w : widgets) : M unit :=
  (if clear_clicked w then
     set_chat_history [] ;; emit StSuccessCleared ;; st_rerun
   else mret tt) ;;
  let* s := get in
  match chat_history s with
  | [] => emit StInfoHistoryEmpty
  | _ => show_messages
  end.

(** One run of the script on the session state: the three tabs in
    order. An exception ends the run; the session state keeps what was
    assigned before. *)
Definition main (gem : gemini) (w : widgets) : M unit :=
  tab1 gem w ;; tab2 gem w ;; tab3 w.

(** The session state after a sequence of runs, each with the service
    and the widget values it meets. *)
Definition run_session (runs : list (gemini * widgets)) : session_state :=
  foldl (fun s gw => final (main gw.1 gw.2 s)) initial_state runs.

(** The session states a browser session can be in. *)
Definition reachable (s : session_state) : Prop :=
  exists runs, s = run_session runs.

(** ** Reading the model *)

(** The list in [quiz_questions]; [None] holds no items. *)
Definition quiz_items (s : session_state) : list value :=
  match quiz_questions s with
  | VList l => l
  | _ => []
  end.

(** The requests a run sent to the service, in order. *)
Definition calls (l : list (session_state * event)) : list request :=
  omap (fun se => match se.2 with Call r => Some r | _ => None end) l.

(** The requests a run sent, each with the session state at the time
    of the call. *)
Definition calls_with_state (l : list (session_state * event))
  : list (session_state * request) :=
  omap (fun se => match se.2 with Call r => Some (se.1, r) | _ => None end) l.

(** The [st.error] messages a run showed, in order. *)
Definition errors (l : list (session_state * event)) : list error_message :=
  omap (fun se => match se.2 with StError m => Some m | _ => None end) l.

(** A turn of the user with one part. *)
Definition user_turn (text : str) : turn := {| role := user; parts := [text] |}.

(** The request of the quiz generator for a topic. *)
Definition quiz_request (topic : str) : request :=
  GenerateContent (quiz_prompt topic) (Some json_generation_config).

(** What [get_gemini_response] prints and shows after a failed call. *)
Definition api_error_events (s : session_state) (prompt : str)
    (force_json : bool) (e : str) : list (session_state * event) :=
  map (pair s)
    [Print (lit "--- ERROR CALLING GEMINI API ---");
     Print (lit "Error: " ++ e);
     Print (lit "Prompt: " ++ prompt);
     Print (lit "JSON Mode: " ++ lit (if force_json then "True" else "False"));
     Print (lit "---------------------------------");
     StError (GeminiApiError e)].

(** The state with another chat history. *)
Definition with_history (h : list turn) (s : session_state) : session_state := {|
  chat_history := h;
  quiz_questions := quiz_questions s;
  user_answers := user_answers s;
  quiz_score := quiz_score s
|}.

(** The state with another value in [quiz_questions]. *)
Definition with_questions (q : value) (s : session_state) : session_state := {|
  chat_history := chat_history s;
  quiz_questions := q;
  user_answers := user_answers s;
  quiz_score := quiz_score s
|}.

(** The quiz part of the state discarded, the chat history kept. *)
Definition cleared (s : session_state) : session_state := {|
  chat_history := chat_history s;
  quiz_questions := VList [];
  user_answers := ∅;
  quiz_score := None
|}.

(** ** The quiz in words *)

(** [isinstance(v, dict)] *)
Definition is_dict (v : value) : bool :=
  match v with VDict _ => true | _ => false end.

(** The field [correct_answer] of an item, when it has one. *)
Definition correct_answer (q : value) : option value :=
  match q with
  | VDict d => dict_get (lit "correct_answer") d
  | _ => None
  end.

(** The grading rule in words: an item counts when an answer is
    recorded for its index, the item has a [correct_answer], and the two
    are equal. *)
Definition answered_correctly (answers : gmap nat value) (iq : nat * value)
  : bool :=
  match answers !! iq.1, correct_answer iq.2 with
  | Some a, Some c => py_eq a c
  | _, _ => false
  end.

(** The score in words. *)
Definition count_correct (items : list value) (answers : gmap nat value) : Z :=
  Z.of_nat (length (List.filter (answered_correctly answers) (enumerate items))).

(** The question and the options of an item the form can show: a
    dictionary with a [question] and with [options] that are a list. *)
Definition well_formed_question (q : value) : option (value * list value) :=
  match q with
  | VDict d =>
      match dict_get (lit "question") d, dict_get (lit "options") d with
      | Some question, Some (VList options) => Some (question, options)
      | _, _ => None
      end
  | _ => None
  end.

(** The test of the form returns on this item. *)
Definition draws (q : value) : bool :=
  match malformed_question q with
  | Ok _ => true
  | Raise _ => false
  end.

(** The form in words: a well-formed item gets the option selected in
    its radio as answer, any other item gets none and is reported. *)
Definition form_step (w : widgets) (answers : gmap nat value)
    (iq : nat * value) : gmap nat value :=
  match well_formed_question iq.2 with
  | Some (_, options) =>
      <[iq.1 := st_radio options (radio_choice w iq.1)]> answers
  | None => answers
  end.

(** The answers a form over the items collects. *)
Definition form_answers (w : widgets) (items : list value) : gmap nat value :=
  foldl (form_step w) ∅ (enumerate items).

(** What the form shows for an item. *)
Definition form_event (s : session_state) (iq : nat * value)
  : session_state * event :=
  (s, match well_formed_question iq.2 with
      | Some (question, options) =>
          Question (iq.1 + 1) question (VList options)
      | None => StError (SkippingMalformedQuestion (iq.1 + 1) iq.2)
      end).

(** The state after a submit: the answers and their score stored. *)
Definition graded (answers : gmap nat value) (s : session_state)
  : session_state := {|
  chat_history := chat_history s;
  quiz_questions := quiz_questions s;
  user_answers := answers;
  quiz_score := Some (count_correct (quiz_items s) answers)
|}.

(** ** Invariants *)

(** The quiz part of the state is that of a session without a quiz. *)
Definition quiz_cleared (s : session_state) : Prop :=
  quiz_questions s = VList [] /\ user_answers s = ∅ /\ quiz_score s = None.

(** The invariant of the quiz part of the session state. *)
Definition quiz_inv (s : session_state) : Prop :=
  (quiz_questions s = VNone \/ exists l, quiz_questions s = VList l) /\
  (forall i, is_Some (user_answers s !! i) -> (i < length (quiz_items s))%nat) /\
  (forall sc, quiz_score s = Some sc ->
     quiz_items s <> [] /\
     sc = count_correct (quiz_items s) (user_answers s)).

(** The invariant during a run that started in [s0] with the widget
    values [w]: the quiz invariant, and a score where [s0] had none
    only if the submit button was clicked. *)
Definition run_inv (s0 : session_state) (w : widgets) (s : session_state)
  : Prop :=
  quiz_inv s /\
  (quiz_score s0 = None -> quiz_score s <> None -> submit_clicked w = true).

(** Every chat turn has a part to show. *)
Definition chat_ok (s : session_state) : Prop :=
  Forall (fun t => parts t <> []) (chat_history s).

(** What the reachable states have in common: without a score there
    are no answers; with a score the items are a non-empty list that
    the form can draw, the answers are those of a form over these
    items, and the score is their count of correct answers. *)
Definition quiz_wf (s : session_state) : Prop :=
  (quiz_questions s = VNone \/ exists l, quiz_questions s = VList l) /\
  match quiz_score s with
  | None => user_answers s = ∅
  | Some sc =>
      quiz_items s <> [] /\
      Forall (fun q => draws q = true) (quiz_items s) /\
      (exists w, user_answers s = form_answers w (quiz_items s)) /\
      sc = count_correct (quiz_items s) (user_answers s)
  end.

(** ** Statements about script computations *)

(** Partial correctness of a script computation: from a state in [P],
    a normal end is in [Q] and an exception leaves a state in [E]. *)
Definition triple {A} (P : session_state -> Prop) (m : M A)
    (Q : A -> session_state -> Prop) (E : session_state -> Prop) : Prop :=
  forall s, P s ->
    match outcome (m s) with
    | Ok a => Q a (final (m s))
    | Raise _ => E (final (m s))
    end.

(** [m] keeps the session state in [R], however it ends. *)
Definition preserves {A} (R : session_state -> Prop) (m : M A) : Prop :=
  triple R m (fun _ => R) R.

(** From [s], the computation [m] ends with [o] in the state [s']. *)
Definition ends {A} (m : M A) (s : session_state) (o : result A)
    (s' : session_state) : Prop :=
  outcome (m s) = o /\ final (m s) = s'.

(** A property that does not look at the chat history. *)
Definition chat_blind (R : session_state -> Prop) : Prop :=
  forall h s, R s -> R (with_history h s).

(** A property that looks at the chat history only. *)
Definition quiz_blind (R : session_state -> Prop) : Prop :=
  forall q a sc s,
    R s ->
    R {| chat_history := chat_history s; quiz_questions := q;
         user_answers := a; quiz_score := sc |}.

(** No widget of the run is used. *)
Definition idle (w : widgets) : Prop :=
  chat_input w = None /\ generate_clicked w = false /\
  submit_clicked w = false /\ retake_clicked w = false /\
  clear_clicked w = false.

(** A result of the decoder on the text [s]: a rest shorter than [s],
    or an exception other than that of exhausted fuel. *)
Definition consumes (r : result (value * str)) (s : str) : Prop :=
  match r with
  | Ok vr => (length vr.2 < length s)%nat
  | Raise e => e <> RecursionError
  end.

(** ** Sample data *)

(** A one-question quiz as JSON text. *)
Definition one_question_json : str :=
  qlit "[{'question':'Q','options':['A','B'],'correct_answer':'A'}]".

(** The question it decodes to. *)
Definition one_question : value :=
  VDict [(lit "question", VStr (lit "Q"));
         (lit "options", VList [VStr (lit "A"); VStr (lit "B")]);
         (lit "correct_answer", VStr (lit "A"))].

(** The same text inside a markdown fence, after a line of prose. *)
Definition fenced_reply : str :=
  lit "Here you go:" ++ nl ++ lit "```json" ++ nl
  ++ one_question_json ++ nl ++ lit "```".

(** The same text after prose that itself uses square brackets. *)
Definition bracketed_prose_reply : str :=
  lit "Quiz [easy]: " ++ one_question_json.

(** A reply whose array holds a number before a well-formed item. *)
Definition mixed_reply : str :=
  qlit "[7, {'question':'Q','options':['A','B'],'correct_answer':'A'}]".




(** A service that always replies with the one-question quiz. *)
Definition sample_gemini : gemini := fun _ => Text one_question_json.

(** Widget values of a run that uses at most the generate button or
    the submit button, with the first option selected. *)
Definition sample_widgets (generate submit : bool) : widgets := {|
  chat_input := None;
  topic := lit "Rocq";
  generate_clicked := generate;
  radio_choice := fun _ => 0%nat;
  submit_clicked := submit;
  retake_clicked := false;
  clear_clicked := false
|}.

(** A session of two runs: a quiz is generated, then the form is
    submitted. *)
Definition sample_session : list (gemini * widgets) :=
  [(sample_gemini, sample_widgets true false);
   (sample_gemini, sample_widgets false true)].

(** ** The head of the script

    The configuration block and the initialisation of the session state,
    which run before the page in every run of the script. *)

(** What a call that can fail gives: its value, or the exception with
    its message. *)
Inductive attempt (A : Type) :=
| Done (a : A)
| Failed (e : exn) (message : str).
Arguments Done {A} a.
Arguments Failed {A} e message.

(** Texts of [st.error] in the configuration block. *)
Inductive startup_error :=
| ApiKeyEmpty
| ApiKeyNotFound
| ApiConfigurationError (message : str).

(** How the configuration block ends: the client is configured with the
    key, or an error is shown and [st.stop()] ends the run, or an
    exception that is no [Exception] passes through. The signal of
    [st.stop()] is no [Exception] either, so the handlers of the block
    let it pass. *)
Inductive startup :=
| Configured (api_key : value)
| Stopped (m : startup_error)
| Escaped (e : exn).

(** The two [except] clauses of the block. *)
Definition startup_handler (e : exn) (message : str) : startup :=
  match e with
  | KeyError => Stopped ApiKeyNotFound
  | _ =>
      if is_Exception e then Stopped (ApiConfigurationError message)
      else Escaped e
  end.

(** The configuration block, given what [st.secrets["GEMINI_API_KEY"]]
    and [genai.configure(api_key=...)] do. *)
Definition configure_api (secret : attempt value)
    (genai_configure : value -> attempt unit) : startup :=
  match secret with
  | Done api_key =>
      if negb (py_truthy api_key) then Stopped ApiKeyEmpty
      else
        match genai_configure api_key with
        | Done _ => Configured api_key
        | Failed e message => startup_handler e message
        end
  | Failed e message => startup_handler e message
  end.

(** [st.session_state] as a run finds it: each key is present or not. *)
Record session_store := {
  stored_chat_history : option (list turn);
  stored_quiz_questions : option value;
  stored_user_answers : option (gmap nat value);
  stored_quiz_score : option (option Z)
}.

Definition empty_store : session_store := {|
  stored_chat_history := None;
  stored_quiz_questions := None;
  stored_user_answers := None;
  stored_quiz_score := None
|}.

(** The initialisation block: a key that is absent gets its default. *)
Definition init_session (st : session_store) : session_state := {|
  chat_history := default [] (stored_chat_history st);
  quiz_questions := default (VList []) (stored_quiz_questions st);
  user_answers := default ∅ (stored_user_answers st);
  quiz_score := default None (stored_quiz_score st)
|}.

(** The store that holds the four keys of a session state. *)
Definition store (s : session_state) : session_store := {|
  stored_chat_history := Some (chat_history s);
  stored_quiz_questions := Some (quiz_questions s);
  stored_user_answers := Some (user_answers s);
  stored_quiz_score := Some (quiz_score s)
|}.

(** One run of the whole script. *)
Inductive script_run :=
| PageRun (r : result unit * session_state * list (session_state * event))
| PageStopped (m : startup_error)
| PageEscaped (e : exn).

Definition script (secret : attempt value)
    (genai_configure : value -> attempt unit) (gem : gemini) (w : widgets)
    (st : session_store) : script_run :=
  match configure_api secret genai_configure with
  | Configured _ => PageRun (main gem w (init_session st))
  | Stopped m => PageStopped m
  | Escaped e => PageEscaped e
  end.

(** The store a run leaves. *)
Definition stored_after (st : session_store) (r : script_run) : session_store :=
  match r with
  | PageRun r => store (final r)
  | _ => st
  end.

(** The requests a run of the whole script sent. *)
Definition script_calls (r : script_run) : list request :=
  match r with
  | PageRun r => calls (trace r)
  | _ => []
  end.

(** The store after a sequence of runs of the whole script in a new
    browser session. *)
Definition script_session (secret : attempt value)
    (genai_configure : value -> attempt unit)
    (runs : list (gemini * widgets)) : session_store :=
  foldl (fun st gw =>
           stored_after st (script secret genai_configure gw.1 gw.2 st))
    empty_store runs.

(** ** More readings of the model *)

(** A turn of the model with one part. *)
Definition model_turn (text : str) : turn :=
  {| role := model; parts := [text] |}.

(** A model turn only comes directly after a user turn. *)
Fixpoint replies_follow_prompts (after_user : bool) (h : list turn) : bool :=
  match h with
  | [] => true
  | t :: r =>
      match role t with
      | user => replies_follow_prompts true r
      | model => after_user && replies_follow_prompts false r
      end
  end.

(** The shape of a chat history: replies follow prompts, and every turn
    has one part, which is not empty. *)
Definition chat_shape (s : session_state) : Prop :=
  replies_follow_prompts false (chat_history s) = true /\
  Forall (fun t => exists c text, parts t = [c :: text]) (chat_history s).

(** The text a message of the history is shown with:
    [message["parts"][0]]. *)
Definition first_part (t : turn) : str :=
  match parts t with
  | part :: _ => part
  | [] => []
  end.

(** The messages the page shows for the chat history of [s]. *)
Definition shown_history (s : session_state) : list (session_state * event) :=
  map (fun t => (s, ChatMessage (role t) (first_part t))) (chat_history s).

(** The request of a chat message [p] in the state [s]. *)
Definition chat_request (s : session_state) (p : str) : request :=
  SendMessage (chat_history s ++ [user_turn p]) p.

(** The requests of the quiz generator in a run with the widget values
    [w]. *)
Definition generate_calls (w : widgets) : list request :=
  match generate_clicked w, topic w with
  | true, _ :: _ => [quiz_request (topic w)]
  | _, _ => []
  end.

(** The numbers of the answers a run showed as correct. *)
Definition shown_correct (l : list (session_state * event)) : list nat :=
  omap (fun se => match se.2 with
                  | AnswerCorrect n _ => Some n
                  | _ => None
                  end) l.

(** The position of the first of the options that equals [c]. *)
Fixpoint position_of (c : value) (options : list value) : option nat :=
  match options with
  | [] => None
  | o :: r => if py_eq o c then Some 0%nat else S <$> position_of c r
  end.

(** The selection in the radio of an item that is graded as correct,
    when there is one: the position of the correct answer among the
    options, or any position when there are no options and the correct
    answer is [None]. *)
Definition correct_position (q : value) : option nat :=
  match well_formed_question q, correct_answer q with
  | Some (_, []), Some c => if py_eq VNone c then Some 0%nat else None
  | Some (_, options), Some c => position_of c options
  | _, _ => None
  end.

(** An item that some selection answers correctly. *)
Definition answerable (q : value) : bool :=
  bool_decide (is_Some (correct_position q)).

(** The selections that answer every answerable item correctly. *)
Definition best_choice (items : list value) (i : nat) : nat :=
  default 0%nat (items !! i ≫= correct_position).

(** The widget values [w] with other selections in the radios. *)
Definition with_choice (choice : nat -> nat) (w : widgets) : widgets := {|
  chat_input := chat_input w;
  topic := topic w;
  generate_clicked := generate_clicked w;
  radio_choice := choice;
  submit_clicked := submit_clicked w;
  retake_clicked := retake_clicked w;
  clear_clicked := clear_clicked w
|}.

(** The service answers a quiz request with arrays of objects: when
    the sanitizer finds a list in a reply, its items are
    dictionaries. *)
Definition replies_with_objects (gem : gemini) : Prop :=
  forall prompt config raw l s,
    gem (GenerateContent prompt config) = Text raw ->
    outcome (clean_json_response raw s) = Ok (VList l) ->
    Forall (fun q => is_dict q = true) l.

(** The session state a run without a crash can start in: well formed,
    with objects as quiz items. *)
Definition objects_inv (s : session_state) : Prop :=
  quiz_wf s /\ chat_ok s /\ Forall (fun q => is_dict q = true) (quiz_items s).

(** [m] sends nothing to the service. *)
Definition quiet {A} (m : M A) : Prop :=
  forall s, calls (trace (m s)) = [].

(** From a state in [P], the computation [m] ends in a state in [P],
    normally or with the request for a rerun. *)
Definition safe {A} (P : session_state -> Prop) (m : M A) : Prop :=
  forall s, P s ->
    P (final (m s)) /\
    match outcome (m s) with
    | Ok _ => True
    | Raise e => e = RerunException
    end.

(** * Properties *)

(** ** Strings *)

Lemma find_ge c s : -1 <= find c s.
Proof.
  induction s as [|x r IH]; simpl; [lia|].
  destruct (N.eqb x c); [lia|].
  destruct (Z.eqb_spec (find c r) (-1)); lia.
Qed.

Lemma rfind_ge c s : -1 <= rfind c s.
Proof.
  induction s as [|x r IH]; simpl; [lia|].
  destruct (Z.eqb_spec (rfind c r) (-1)); [destruct (N.eqb x c)|]; lia.
Qed.

Lemma find_absent c s : c ∉ s <-> find c s = -1.
Proof.
  induction s as [|x r IH]; simpl.
  - split; [done|]. intros _. apply not_elem_of_nil.
  - rewrite not_elem_of_cons. destruct (N.eqb_spec x c) as [->|Hne].
    + split; [intros [[] _]; done | lia].
    + pose proof (find_ge c r).
      destruct (Z.eqb_spec (find c r) (-1)) as [He|He].
      * split; [done|]. intros _. split; [congruence | by apply IH].
      * split; [|lia]. intros [_ Hr]. apply IH in Hr. lia.
Qed.

Lemma rfind_absent c s : c ∉ s <-> rfind c s = -1.
Proof.
  induction s as [|x r IH]; simpl.
  - split; [done|]. intros _. apply not_elem_of_nil.
  - rewrite not_elem_of_cons. pose proof (rfind_ge c r).
    destruct (Z.eqb_spec (rfind c r) (-1)) as [He|He].
    + destruct (N.eqb_spec x c) as [->|Hne].
      * split; [intros [[] _]; done | lia].
      * split; [done|]. intros _. split; [congruence | by apply IH].
    + split; [|lia]. intros [_ Hr]. apply IH in Hr. lia.
Qed.

(** The first occurrence is found behind a prefix that has none. *)
Lemma find_app c pre r :
  c ∉ pre -> find c (pre ++ c :: r) = Z.of_nat (length pre).
Proof.
  induction pre as [|x pre IH]; simpl; intros Hn.
  - by rewrite N.eqb_refl.
  - apply not_elem_of_cons in Hn as [Hx Hp].
    destruct (N.eqb_spec x c); [congruence|].
    rewrite (IH Hp). destruct (Z.eqb_spec (Z.of_nat (length pre)) (-1)); lia.
Qed.

(** The last occurrence is the one followed by none. *)
Lemma rfind_app c pre post :
  c ∉ post -> rfind c (pre ++ c :: post) = Z.of_nat (length pre).
Proof.
  intros Hn. induction pre as [|x pre IH]; simpl.
  - apply rfind_absent in Hn. rewrite Hn. simpl. by rewrite N.eqb_refl.
  - rewrite IH. destruct (Z.eqb_spec (Z.of_nat (length pre)) (-1)); lia.
Qed.

Lemma py_slice_middle {A} (a b c : list A) :
  py_slice (a ++ b ++ c) (Z.of_nat (length a))
    (Z.of_nat (length a + length b)) = b.
Proof.
  unfold py_slice, slice_bound. rewrite !length_app.
  destruct (Z.ltb_spec (Z.of_nat (length a + length b)) 0); [lia|].
  destruct (Z.ltb_spec (Z.of_nat (length a)) 0); [lia|].
  rewrite !Z.min_l, !Nat2Z.id by lia.
  rewrite app_assoc, take_app_length' by (rewrite length_app; lia).
  by rewrite drop_app_length.
Qed.

(** ** The decoder on a text that opens with a square bracket *)

Lemma array_loop_list fuel s values v r :
  array_loop fuel s values = Ok (v, r) -> exists l, v = VList l.
Proof.
  revert s values. induction fuel as [|fuel IH]; intros s values; simpl.
  - discriminate.
  - intros H. repeat case_match; simplify_eq; eauto.
Qed.

Lemma scan_once_bracket fuel rest :
  scan_once (S fuel) (91%N :: rest) =
  match skip_ws rest with
  | 93%N :: r => Ok (VList [], r)
  | s1 => array_loop fuel s1 []
  end.
Proof. reflexivity. Qed.

Lemma json_loads_bracket rest v :
  json_loads (91%N :: rest) = Ok v -> exists l, v = VList l.
Proof.
  unfold json_loads.
  change (starts_with [65279%N] (91%N :: rest)) with false.
  change (skip_ws (91%N :: rest)) with (91%N :: rest).
  cbv iota. rewrite scan_once_bracket.
  destruct (match skip_ws rest with
            | 93%N :: r => Ok (VList [], r)
            | s1 => array_loop (2 * length (91%N :: rest)) s1 []
            end) as [[v' r']|e] eqn:E.
  - intros H. assert (v' = v) as -> by (repeat case_match; simplify_eq; done).
    repeat case_match; simplify_eq; eauto using array_loop_list.
  - intros H. repeat case_match; simplify_eq.
Qed.

Lemma json_loads_empty : json_loads [] = Raise JSONDecodeError.
Proof. reflexivity. Qed.

(** ** The decoder consumes its text *)

Lemma skip_ws_length s : (length (skip_ws s) <= length s)%nat.
Proof.
  induction s as [|c r IH]; simpl; [lia|].
  destruct (is_ws c); simpl; lia.
Qed.

Lemma scanstring_spec n s acc :
  (length s <= n)%nat ->
  match scanstring s acc with
  | Ok tr => (length tr.2 < length s)%nat
  | Raise e => e = JSONDecodeError
  end.
Proof.
  revert s acc. induction n as [|n IH]; intros s acc Hn.
  - destruct s; [done|simpl in Hn; lia].
  - destruct s as [|c r]; [done|]. simpl in Hn. simpl.
    repeat case_match; simplify_eq; try done;
      lazymatch goal with
      | H : scanstring ?s' ?acc' = _ |- _ =>
          let H' := fresh in
          assert (length s' <= n)%nat as H' by (simpl in Hn |- *; lia);
          pose proof (IH s' acc' H') as IH'; rewrite H in IH';
          simpl in IH', Hn |- *; try done; try lia
      | H : decode_uXXXX _ _ _ _ = Raise _ |- _ =>
          unfold decode_uXXXX in H; by repeat case_match; simplify_eq
      | _ => simpl; lia
      end.
Qed.

Lemma span_digits_length s : (length (span_digits s).2 <= length s)%nat.
Proof.
  induction s as [|c r IH]; simpl; [lia|].
  destruct (is_digit c); [|simpl; lia].
  destruct (span_digits r) as [ds r']. simpl in *. lia.
Qed.

Lemma match_frac_length s : (length (match_frac s).2 <= length s)%nat.
Proof.
  unfold match_frac. repeat case_match; simplify_eq; simpl; try lia.
  lazymatch goal with
  | H : span_digits ?r = _ |- _ =>
      pose proof (span_digits_length r) as Hl; rewrite H in Hl; simpl in Hl; lia
  end.
Qed.

Lemma match_exp_length s : (length (match_exp s).2 <= length s)%nat.
Proof.
  unfold match_exp. repeat case_match; simplify_eq; simpl; try lia;
  lazymatch goal with
  | H : span_digits ?r = _ |- _ =>
      pose proof (span_digits_length r) as Hl; rewrite H in Hl; simpl in Hl; lia
  end.
Qed.

Lemma match_number_length s m :
  match_number s = Some m -> (length (nm_rest m) < length s)%nat.
Proof.
  unfold match_number. intros H.
  repeat case_match; simplify_eq; simpl in *;
  repeat lazymatch goal with
  | H : span_digits ?r = _ |- _ =>
      pose proof (span_digits_length r) as ?Hl; rewrite H in *; clear H
  | H : match_frac ?r = _ |- _ =>
      pose proof (match_frac_length r) as ?Hl; rewrite H in *; clear H
  | H : match_exp ?r = _ |- _ =>
      pose proof (match_exp_length r) as ?Hl; rewrite H in *; clear H
  end; simpl in *; lia.
Qed.

Lemma starts_with_length p s :
  starts_with p s = true -> (length p <= length s)%nat.
Proof.
  revert s. induction p as [|a p IH]; intros [|b s]; simpl; try lia; try done.
  intros H. apply andb_true_iff in H as [_ H]. apply IH in H. lia.
Qed.

(** Collects what is known about the lengths of the texts in the
    context. *)
Ltac length_facts :=
  repeat lazymatch goal with
    | H : scanstring ?s' ?acc' = _ |- _ =>
        pose proof (scanstring_spec _ s' acc' (Nat.le_refl _)) as ?Hs;
        rewrite H in *; clear H
    | H : skip_ws ?s' = _ |- _ =>
        pose proof (skip_ws_length s') as ?Hw; rewrite H in *; clear H
    | H : starts_with ?p ?s' = true |- _ =>
        apply starts_with_length in H
    | H : match_number ?s' = Some _ |- _ =>
        apply match_number_length in H
    end;
  simpl in *; rewrite ?length_drop.

Lemma scan_once_fuel fuel :
  (forall s, (2 * length s < fuel)%nat -> consumes (scan_once fuel s) s) /\
  (forall s values,
     (2 * length s + 1 < fuel)%nat -> consumes (array_loop fuel s values) s) /\
  (forall s pairs,
     (2 * length s + 1 < fuel)%nat -> consumes (object_loop fuel s pairs) s).
Proof.
  induction fuel as [|fuel (IHs & IHa & IHo)].
  - split_and!; intros; lia.
  - split_and!.
    + intros s Hf. cbn [scan_once]. unfold rbind.
      destruct s as [|c rest]; [done|]. simpl in Hf.
      repeat case_match; simplify_eq; unfold consumes; cbn [snd length];
        try done; length_facts; try lia; try congruence;
        lazymatch goal with
        | |- match array_loop fuel ?s' ?acc with _ => _ end =>
            assert (consumes (array_loop fuel s' acc) s') as Hg
              by (apply IHa; simpl in *; lia);
            unfold consumes in Hg; destruct (array_loop fuel s' acc);
            simpl in *; [lia|done]
        | |- match object_loop fuel ?s' ?acc with _ => _ end =>
            assert (consumes (object_loop fuel s' acc) s') as Hg
              by (apply IHo; simpl in *; lia);
            unfold consumes in Hg; destruct (object_loop fuel s' acc);
            simpl in *; [lia|done]
        end.
    + intros s values Hf. cbn [array_loop].
      assert (consumes (scan_once fuel s) s) as Hg by (apply IHs; lia).
      unfold consumes in *. destruct (scan_once fuel s) as [[v r]|e];
        [|by destruct e]. simpl in Hg.
      repeat case_match; simplify_eq; cbn [snd]; try done;
        length_facts; try lia;
        lazymatch goal with
        | H : array_loop fuel (skip_ws ?l) ?acc = _ |- _ =>
            pose proof (skip_ws_length l);
            assert (consumes (array_loop fuel (skip_ws l) acc) (skip_ws l)) as Hg'
              by (apply IHa; simpl in *; lia);
            rewrite H in Hg'; simpl in Hg'; try done; lia
        end.
    + intros s pairs Hf. cbn [object_loop]. unfold rbind.
      pose proof (scanstring_spec _ s [] (Nat.le_refl _)) as Hk.
      destruct (scanstring s []) as [[k r]|e]; [|by subst e]. simpl in Hk.
      pose proof (skip_ws_length r) as Hw. cbn [fst snd].
      destruct (skip_ws r) as [|c r1]; [done|]. unfold consumes.
      repeat case_match; simplify_eq; cbn [snd]; try done;
      lazymatch goal with
        | H : scan_once fuel ?s' = _ |- _ =>
            pose proof (skip_ws_length r1) as Hw1;
            assert (consumes (scan_once fuel s') s') as Hg
              by (apply IHs; simpl in *; lia);
            rewrite H in Hg; simpl in Hg
        end; try done; length_facts; try lia;
        lazymatch goal with
        | H : object_loop fuel ?s' ?acc = _ |- _ =>
            assert (consumes (object_loop fuel s' acc) s') as Hg'
              by (apply IHo; simpl in *; lia);
            rewrite H in Hg'; simpl in Hg'; try done; lia
        end.
Qed.

(** The fuel [json_loads] starts with is never used up. *)
Lemma json_loads_fuel s : json_loads s <> Raise RecursionError.
Proof.
  unfold json_loads. destruct (starts_with [65279%N] s); [done|].
  pose proof (skip_ws_length s) as Hw.
  assert (consumes (scan_once (S (2 * length s)) (skip_ws s)) (skip_ws s)) as Hg
    by (apply scan_once_fuel; lia).
  unfold consumes in Hg.
  destruct (scan_once _ _) as [[v r]|e]; [|by destruct e].
  by destruct (skip_ws r).
Qed.

(** The decoder raises nothing but [JSONDecodeError]. *)
Lemma scan_once_raises fuel :
  (forall s e, scan_once fuel s = Raise e ->
     e = JSONDecodeError \/ e = StopIteration \/ e = RecursionError) /\
  (forall s values e, array_loop fuel s values = Raise e ->
     e = JSONDecodeError \/ e = StopIteration \/ e = RecursionError) /\
  (forall s pairs e, object_loop fuel s pairs = Raise e ->
     e = JSONDecodeError \/ e = StopIteration \/ e = RecursionError).
Proof.
  induction fuel as [|fuel (IHs & IHa & IHo)].
  - split_and!; intros; simplify_eq/=; eauto.
  - split_and!.
    + intros s e. cbn [scan_once]. unfold rbind. intros H.
      repeat case_match; simplify_eq; eauto;
        lazymatch goal with
        | H : scanstring ?s' ?acc' = Raise _ |- _ =>
            pose proof (scanstring_spec _ s' acc' (Nat.le_refl _)) as Hs;
            rewrite H in Hs; eauto
        end.
    + intros s values e. cbn [array_loop]. intros H.
      repeat case_match; simplify_eq; eauto.
    + intros s pairs e. cbn [object_loop]. unfold rbind. intros H.
      repeat case_match; simplify_eq; eauto;
        lazymatch goal with
        | H : scanstring ?s' ?acc' = Raise _ |- _ =>
            pose proof (scanstring_spec _ s' acc' (Nat.le_refl _)) as Hs;
            rewrite H in Hs; eauto
        end.
Qed.

Lemma json_loads_raises s e : json_loads s = Raise e -> e = JSONDecodeError.
Proof.
  intros H. pose proof (json_loads_fuel s) as Hfuel. rewrite H in Hfuel.
  unfold json_loads in H.
  destruct (scan_once (S (2 * length s)) (skip_ws s)) as [[v r]|e'] eqn:E.
  - repeat case_match; simplify_eq; done.
  - apply scan_once_raises in E.
    repeat case_match; simplify_eq; destruct E as [?|[?|?]]; congruence.
Qed.

Lemma json_loads_exception s e :
  json_loads s = Raise e -> is_Exception e = true.
Proof. intros H. by rewrite (json_loads_raises s e H). Qed.

(** ** The sanitizer *)

Lemma find_split c s k :
  find c s = Z.of_nat k ->
  exists pre r, s = pre ++ c :: r /\ length pre = k /\ c ∉ pre.
Proof.
  revert k. induction s as [|x r IH]; simpl; intros k; [lia|].
  destruct (N.eqb_spec x c) as [->|Hne].
  - intros Hk. exists [], r. split_and!; [done|simpl; lia|apply not_elem_of_nil].
  - pose proof (find_ge c r).
    destruct (Z.eqb_spec (find c r) (-1)); [lia|]. intros Hk.
    destruct (IH (Z.to_nat (find c r))) as (pre & r' & -> & Hl & Hn); [lia|].
    exists (x :: pre), r'. split_and!; [done|simpl; lia|].
    apply not_elem_of_cons. split; [congruence|done].
Qed.

Lemma rfind_split c s k :
  rfind c s = Z.of_nat k ->
  exists pre post, s = pre ++ c :: post /\ length pre = k /\ c ∉ post.
Proof.
  revert k. induction s as [|x r IH]; simpl; intros k; [lia|].
  pose proof (rfind_ge c r).
  destruct (Z.eqb_spec (rfind c r) (-1)) as [He|He].
  - destruct (N.eqb_spec x c) as [->|Hne]; [|lia]. intros Hk.
    exists [], r. split_and!; [done|simpl; lia|by apply rfind_absent].
  - intros Hk.
    destruct (IH (Z.to_nat (rfind c r))) as (pre & post & -> & Hl & Hn); [lia|].
    exists (x :: pre), post. split_and!; [done|simpl; lia|done].
Qed.

(** When the last closing bracket comes before the first opening one,
    the slice is empty. *)
Lemma py_slice_empty {A} (s : list A) lo hi :
  0 <= lo -> 0 <= hi <= lo -> py_slice s lo hi = [].
Proof.
  intros Hlo Hhi. unfold py_slice, slice_bound.
  destruct (Z.ltb_spec hi 0); [lia|]. destruct (Z.ltb_spec lo 0); [lia|].
  apply drop_ge. rewrite length_take. lia.
Qed.

(** The shape of the text handed to the decoder. *)
Lemma bracket_slice raw :
  find 91 raw <> -1 -> rfind 93 raw <> -1 ->
  py_slice raw (find 91 raw) (rfind 93 raw + 1) = [] \/
  exists pre mid post,
    raw = pre ++ (91%N :: mid ++ [93%N]) ++ post /\
    (91%N ∉ pre) /\ (93%N ∉ post) /\
    py_slice raw (find 91 raw) (rfind 93 raw + 1) = 91%N :: mid ++ [93%N].
Proof.
  intros Hs He. pose proof (find_ge 91 raw). pose proof (rfind_ge 93 raw).
  destruct (find_split 91 raw (Z.to_nat (find 91 raw)))
    as (pre & r & Hraw & Hl & Hn); [lia|].
  destruct (rfind_split 93 raw (Z.to_nat (rfind 93 raw)))
    as (pre' & post & Hraw' & Hl' & Hn'); [lia|].
  destruct (Z.le_gt_cases (rfind 93 raw + 1) (find 91 raw)) as [Hle|Hgt].
  - left. apply py_slice_empty; lia.
  - right. rewrite Hraw in Hraw'.
    apply app_eq_inv in Hraw' as [(k & Hk & Hk')|(k & Hk & Hk')].
    + assert (k = []) as ->.
      { apply (f_equal length) in Hk. rewrite length_app in Hk.
        destruct k; [done|simpl in *; lia]. }
      discriminate.
    + destruct k as [|y mid]; [discriminate|]. simplify_eq/=.
      exists pre, mid, post.
      assert (pre ++ 91%N :: mid ++ 93%N :: post
              = pre ++ (91%N :: mid ++ [93%N]) ++ post) as Hshape.
      { simpl. by rewrite <- app_assoc. }
      split_and!; [done..|].
      replace (find 91 (pre ++ 91%N :: mid ++ 93%N :: post))
        with (Z.of_nat (length pre)) by lia.
      replace (rfind 93 (pre ++ 91%N :: mid ++ 93%N :: post) + 1)
        with (Z.of_nat (length pre + length (91%N :: mid ++ [93%N]))).
      * rewrite Hshape. apply py_slice_middle.
      * rewrite length_app in Hl'. simpl in *. rewrite length_app. simpl. lia.
Qed.

(** The sanitizer never changes the session state, and returns. *)
Lemma clean_json_response_final raw s :
  final (clean_json_response raw s) = s /\
  exists v, outcome (clean_json_response raw s) = Ok v.
Proof.
  unfold clean_json_response.
  destruct (negb (find 91 raw =? -1) && negb (rfind 93 raw =? -1));
    [|split; [reflexivity|eexists; reflexivity]].
  destruct (json_loads _) as [v|e] eqn:E.
  - split; [reflexivity|eexists; reflexivity].
  - apply json_loads_exception in E.
    destruct e; simplify_eq/=; (split; [reflexivity|eexists; reflexivity]).
Qed.

(** C5. A text that lacks an opening square bracket, or lacks a closing
    one, is not decoded: the sanitizer returns [None], shows nothing and
    leaves the session state as it is. *)
Theorem clean_json_response_without_brackets (raw : str) s :
  (91%N ∉ raw) \/ (93%N ∉ raw) ->
  clean_json_response raw s = (Ok VNone, s, []).
Proof.
  intros H. unfold clean_json_response.
  assert (negb (find 91 raw =? -1) && negb (rfind 93 raw =? -1) = false)
    as ->; [|done].
  destruct H as [H|H].
  - apply find_absent in H. by rewrite H.
  - apply rfind_absent in H. rewrite H. apply andb_false_r.
Qed.

Lemma clean_json_response_without_brackets_witness :
  clean_json_response (lit "Sorry, I cannot help with that.") initial_state
  = (Ok VNone, initial_state, []).
Proof.
  apply clean_json_response_without_brackets.
  left. rewrite find_absent. reflexivity.
Defined.

(** The sanitizer returns [None], or what the decoder makes of the text
    from the first opening to the last closing square bracket. *)
Lemma clean_json_response_cases (raw : str) s :
  outcome (clean_json_response raw s) = Ok VNone \/
  exists pre mid post v,
    raw = pre ++ (91%N :: mid ++ [93%N]) ++ post /\
    (91%N ∉ pre) /\ (93%N ∉ post) /\
    json_loads (91%N :: mid ++ [93%N]) = Ok v /\
    outcome (clean_json_response raw s) = Ok v.
Proof.
  unfold clean_json_response.
  destruct (Z.eqb_spec (find 91 raw) (-1)) as [|Hs]; [by left|].
  destruct (Z.eqb_spec (rfind 93 raw) (-1)) as [|He]; [by left|].
  simpl negb. cbv iota.
  destruct (bracket_slice raw Hs He)
    as [->|(pre & mid & post & Hraw & Hn & Hn' & ->)].
  - rewrite json_loads_empty. by left.
  - destruct (json_loads (91%N :: mid ++ [93%N])) as [v|e] eqn:E.
    + right. by exists pre, mid, post, v.
    + apply json_loads_exception in E. left. by destruct e.
Qed.

(** C10. Whatever the sanitizer returns other than [None] is a list: the
    text it decodes runs from the first opening to the last closing
    square bracket of the reply, and the decoder reads a text that opens
    with a square bracket as an array or not at all. *)
Theorem clean_json_response_returns_list (raw : str) s v :
  outcome (clean_json_response raw s) = Ok v -> v <> VNone ->
  exists l pre mid post,
    v = VList l /\
    raw = pre ++ (91%N :: mid ++ [93%N]) ++ post /\
    (91%N ∉ pre) /\ (93%N ∉ post) /\
    json_loads (91%N :: mid ++ [93%N]) = Ok v.
Proof.
  intros Hv Hne.
  destruct (clean_json_response_cases raw s)
    as [Hnone|(pre & mid & post & v' & Hraw & Hpre & Hpost & Hj & Ho)].
  - congruence.
  - assert (v' = v) as -> by congruence.
    destruct (json_loads_bracket _ _ Hj) as [l ->].
    by exists l, pre, mid, post.
Qed.

Lemma clean_json_response_returns_list_witness :
  exists l pre mid post,
    VList [one_question] = VList l /\
    fenced_reply = pre ++ (91%N :: mid ++ [93%N]) ++ post /\
    (91%N ∉ pre) /\ (93%N ∉ post) /\
    json_loads (91%N :: mid ++ [93%N]) = Ok (VList [one_question]).
Proof.
  apply (clean_json_response_returns_list fenced_reply initial_state).
  - reflexivity.
  - discriminate.
Defined.

(** C2, as stated: an array that stands behind prose with square
    brackets of its own is lost, although it is valid JSON. *)
Lemma clean_json_response_bracketed_prose :
  json_loads one_question_json = Ok (VList [one_question]) /\
  bracketed_prose_reply = lit "Quiz [easy]: " ++ one_question_json /\
  outcome (clean_json_response bracketed_prose_reply initial_state)
  = Ok VNone.
Proof. split_and!; reflexivity. Qed.

(** C2, amended. When the prose before the array has no opening square
    bracket and the text after it has no closing one, the sanitizer
    returns what the array decodes to, shows nothing and leaves the
    session state as it is; the fenced sample decodes to its one
    question. *)
Theorem clean_json_response_embedded_array :
  (forall (pre mid post : str) v s,
     (91%N ∉ pre) -> (93%N ∉ post) ->
     json_loads (91%N :: mid ++ [93%N]) = Ok v ->
     clean_json_response (pre ++ (91%N :: mid ++ [93%N]) ++ post) s
     = (Ok v, s, [])) /\
  clean_json_response fenced_reply initial_state
  = (Ok (VList [one_question]), initial_state, []).
Proof.
  split; [|reflexivity].
  intros pre mid post v s Hpre Hpost Hv. unfold clean_json_response.
  assert (find 91 (pre ++ (91%N :: mid ++ [93%N]) ++ post)
          = Z.of_nat (length pre)) as ->.
  { simpl. by apply find_app. }
  assert (rfind 93 (pre ++ (91%N :: mid ++ [93%N]) ++ post)
          = Z.of_nat (length (pre ++ 91%N :: mid))) as ->.
  { replace (pre ++ (91%N :: mid ++ [93%N]) ++ post)
      with ((pre ++ 91%N :: mid) ++ 93%N :: post).
    - by apply rfind_app.
    - simpl. rewrite <- !app_assoc. reflexivity. }
  destruct (Z.eqb_spec (Z.of_nat (length pre)) (-1)); [lia|].
  destruct (Z.eqb_spec (Z.of_nat (length (pre ++ 91%N :: mid))) (-1)); [lia|].
  simpl negb. cbv iota.
  replace (Z.of_nat (length (pre ++ 91%N :: mid)) + 1)
    with (Z.of_nat (length pre + length (91%N :: mid ++ [93%N]))).
  - by rewrite py_slice_middle, Hv.
  - rewrite !length_app. simpl. rewrite length_app. simpl. lia.
Qed.

Lemma clean_json_response_embedded_array_witness :
  clean_json_response
    (lit "Quiz: " ++ (91%N :: lit "1, 2" ++ [93%N]) ++ lit " - enjoy!")
    initial_state
  = (Ok (VList [VInt 1; VInt 2]), initial_state, []).
Proof.
  apply (proj1 clean_json_response_embedded_array).
  - rewrite find_absent. reflexivity.
  - rewrite rfind_absent. reflexivity.
  - reflexivity.
Defined.

(** ** The quiz generator *)

(** What the sanitizer returns does not depend on the session state. *)
Lemma clean_json_response_outcome raw s s' :
  outcome (clean_json_response raw s) = outcome (clean_json_response raw s').
Proof.
  unfold clean_json_response.
  destruct (negb (find 91 raw =? -1) && negb (rfind 93 raw =? -1));
    [|reflexivity].
  destruct (json_loads _) as [v|[]]; reflexivity.
Qed.

Lemma errors_app l1 l2 : errors (l1 ++ l2) = errors l1 ++ errors l2.
Proof. apply omap_app. Qed.

Lemma calls_with_state_app l1 l2 :
  calls_with_state (l1 ++ l2) = calls_with_state l1 ++ calls_with_state l2.
Proof. apply omap_app. Qed.

(** The sanitizer sends nothing to the service. *)
Lemma clean_json_response_calls raw s :
  calls_with_state (trace (clean_json_response raw s)) = [].
Proof.
  unfold clean_json_response.
  destruct (negb (find 91 raw =? -1) && negb (rfind 93 raw =? -1));
    [|reflexivity].
  destruct (json_loads _) as [v|[]]; reflexivity.
Qed.

Lemma clear_quiz_run s : clear_quiz s = (Ok tt, cleared s, []).
Proof. reflexivity. Qed.

#[local] Arguments quiz_prompt : simpl never.
#[local] Arguments json_generation_config : simpl never.
#[local] Arguments clean_json_response : simpl never.

(** The generator, case by case on the reply of the service. *)
Lemma generate_quiz_run gem w s :
  topic w <> [] ->
  generate_quiz gem w s =
  let s0 := cleared s in
  let call := (s0, Call (quiz_request (topic w))) in
  match gem (quiz_request (topic w)) with
  | ApiError e =>
      (Ok tt, s0, call :: api_error_events s0 (quiz_prompt (topic w)) true e)
  | Text [] => (Ok tt, s0, [call])
  | Text raw =>
      match clean_json_response raw s0 with
      | (Ok q, s1, l) =>
          (Ok tt, with_questions q s1,
           call :: l ++ if py_truthy q then []
                        else [(with_questions q s1, StError NoValidQuizData)])
      | (Raise e, s1, l) => (Raise e, s1, call :: l)
      end
  end.
Proof.
  intros Ht. unfold generate_quiz. destruct (topic w) as [|c t] eqn:E; [done|].
  unfold mbind at 1. rewrite clear_quiz_run.
  unfold get_gemini_response, quiz_request, mbind, emit, mret. cbn.
  destruct (gem _) as [[|c' raw]|e]; cbn; [reflexivity| |reflexivity].
  destruct (clean_json_response (c' :: raw) (cleared s)) as [[[q|e] s1] l];
    cbn; [|reflexivity].
  unfold with_questions. destruct (py_truthy q); cbn; by rewrite ?app_nil_r.
Qed.

Lemma quiz_cleared_cleared s : quiz_cleared (cleared s).
Proof. done. Qed.

(** ** The quiz form *)

Lemma malformed_question_dict d :
  malformed_question (VDict d)
  = Ok (match well_formed_question (VDict d) with
        | Some _ => false
        | None => true
        end).
Proof.
  unfold malformed_question, well_formed_question, py_in, py_getitem, rbind.
  destruct (dict_get (lit "question") d) as [qu|]; [|reflexivity].
  destruct (dict_get (lit "options") d) as [[]|]; reflexivity.
Qed.

(** An item that is not a dictionary is skipped or stops the loop with
    an exception; the form never shows it. *)
Lemma malformed_question_other q :
  is_dict q = false ->
  malformed_question q = Ok true \/ exists e, malformed_question q = Raise e.
Proof.
  intros Hq. unfold malformed_question, rbind.
  destruct q; try done; simpl; eauto;
    repeat (case_match; simpl; eauto).
Qed.

Lemma render_question_dict w answers i d s :
  render_question w answers (i, VDict d) s
  = (Ok (form_step w answers (i, VDict d)), s, [form_event s (i, VDict d)]).
Proof.
  unfold render_question, mbind, lift, form_step, form_event.
  rewrite malformed_question_dict. unfold well_formed_question. simpl.
  destruct (dict_get (lit "question") d) as [qu|]; [|reflexivity].
  destruct (dict_get (lit "options") d) as [[]|]; reflexivity.
Qed.

Lemma draws_dict q : is_dict q = true -> draws q = true.
Proof.
  destruct q; try done. intros _. unfold draws.
  by rewrite malformed_question_dict.
Qed.

(** One turn of the form loop: the item is drawn or reported as
    [form_step] and [form_event] say, unless its test raises. *)
Lemma render_question_run w answers i q s :
  render_question w answers (i, q) s
  = match malformed_question q with
    | Ok _ => (Ok (form_step w answers (i, q)), s, [form_event s (i, q)])
    | Raise e => (Raise e, s, [])
    end.
Proof.
  destruct (is_dict q) eqn:Hq.
  - destruct q; try done. rewrite malformed_question_dict.
    apply render_question_dict.
  - unfold render_question, mbind, lift, form_step, form_event.
    cbn [fst snd].
    assert (well_formed_question q = None) as -> by (by destruct q).
    by destruct (malformed_question_other q Hq) as [-> | [e ->]].
Qed.

(** The loop of the form leaves the session state alone. It ends
    normally exactly when the test of every item returns, and then it
    has collected the answers of [form_step] and shown one event for
    each item, in order. *)
Lemma render_loop_run w iqs answers s :
  final (mfold (render_question w) answers iqs s) = s /\
  (forall a, outcome (mfold (render_question w) answers iqs s) = Ok a ->
     a = foldl (form_step w) answers iqs /\
     Forall (fun iq => draws iq.2 = true) iqs) /\
  (Forall (fun iq => draws iq.2 = true) iqs ->
     mfold (render_question w) answers iqs s
     = (Ok (foldl (form_step w) answers iqs), s, map (form_event s) iqs)).
Proof.
  revert answers. induction iqs as [|[i q] iqs IH]; intros answers.
  - split_and!; [done|by intros a [= <-]|done].
  - cbn [mfold foldl map]. unfold mbind. rewrite render_question_run.
    destruct (malformed_question q) as [b|e] eqn:Hm.
    + assert (draws q = true) as Hq by (unfold draws; by rewrite Hm).
      destruct (IH (form_step w answers (i, q))) as (Hf & Ho & Hd).
      destruct (mfold _ _ iqs s) as [[o s'] l] eqn:E.
      unfold final, outcome in *. simpl in *. split_and!; [done| |].
      * intros a Ha. destruct (Ho a Ha) as [-> Hall]. split; [done|].
        by apply Forall_cons.
      * intros Hall. apply Forall_cons in Hall as [_ Hall].
        specialize (Hd Hall). by simplify_eq.
    + assert (draws q = false) as Hq by (unfold draws; by rewrite Hm).
      split_and!; [done|done|].
      intros Hall. apply Forall_cons in Hall as [Hall _]. simpl in Hall.
      congruence.
Qed.

Lemma enumerate_snoc {A} (l : list A) x :
  enumerate (l ++ [x]) = enumerate l ++ [(length l, x)].
Proof.
  unfold enumerate. rewrite imap_app. simpl. by rewrite Nat.add_0_r.
Qed.

Lemma elem_of_enumerate {A} (l : list A) i x :
  (i, x) ∈ enumerate l <-> l !! i = Some x.
Proof.
  unfold enumerate. rewrite elem_of_lookup_imap. split.
  - intros (j & y & [= -> ->] & H). done.
  - intros H. by exists i, x.
Qed.

(** The answers the form collects, index by index. *)
Lemma form_answers_lookup w items i :
  form_answers w items !! i
  = match items !! i with
    | Some q =>
        match well_formed_question q with
        | Some (_, options) => Some (st_radio options (radio_choice w i))
        | None => None
        end
    | None => None
    end.
Proof.
  unfold form_answers. induction items as [|x l IH] using rev_ind.
  - simpl. apply lookup_empty.
  - rewrite enumerate_snoc, foldl_app. cbn [foldl]. unfold form_step at 1.
    cbn [fst snd]. destruct (decide (i = length l)) as [->|Hne].
    + rewrite list_lookup_middle by done.
      destruct (well_formed_question x) as [[qu opts]|].
      * by rewrite lookup_insert_eq.
      * rewrite IH, lookup_ge_None_2; done.
    + assert (foldl (form_step w) ∅ (enumerate l) !! i
              = match (l ++ [x]) !! i with
                | Some q =>
                    match well_formed_question q with
                    | Some (_, options) =>
                        Some (st_radio options (radio_choice w i))
                    | None => None
                    end
                | None => None
                end) as Hl.
      { rewrite IH. destruct (decide (i < length l)%nat).
        - by rewrite lookup_app_l.
        - rewrite !lookup_ge_None_2; [done| |lia].
          rewrite length_app. simpl. lia. }
      destruct (well_formed_question x) as [[qu opts]|]; [|done].
      by rewrite lookup_insert_ne.
Qed.

(** Every answer of the form belongs to an item that is a dictionary. *)
Lemma form_answers_dict w items i :
  is_Some (form_answers w items !! i) ->
  exists d, items !! i = Some (VDict d).
Proof.
  rewrite form_answers_lookup. intros [a Ha].
  destruct (items !! i) as [q|]; [|done].
  destruct q; try done. eauto.
Qed.

(** ** Grading *)

Lemma grade_question_dict score i d s :
  grade_question score (i, VDict d) s
  = (Ok (if answered_correctly (user_answers s) (i, VDict d)
         then score + 1 else score), s, []).
Proof.
  unfold grade_question, answered_correctly, mbind, get, lift, mret.
  cbn [fst snd correct_answer py_in py_getitem].
  destruct (user_answers s !! i) as [a|]; [|reflexivity]. simpl.
  destruct (dict_get (lit "correct_answer") d) as [c|]; reflexivity.
Qed.

Lemma grade_question_unanswered score i q s :
  user_answers s !! i = None ->
  grade_question score (i, q) s = (Ok score, s, []).
Proof. intros H. unfold grade_question, mbind, get. simpl. by rewrite H. Qed.

(** The grading loop counts the items answered correctly, when every
    answered item is a dictionary. *)
Lemma grade_loop_run iqs score s :
  (forall i q, (i, q) ∈ iqs -> is_Some (user_answers s !! i) ->
     is_dict q = true) ->
  mfold grade_question score iqs s
  = (Ok (score + Z.of_nat (length (List.filter
                                    (answered_correctly (user_answers s)) iqs))),
     s, []).
Proof.
  revert score. induction iqs as [|[i q] iqs IH]; intros score Hd.
  - simpl. unfold mret. by rewrite Z.add_0_r.
  - cbn [mfold List.filter]. unfold mbind.
    assert (grade_question score (i, q) s
            = (Ok (if answered_correctly (user_answers s) (i, q)
                   then score + 1 else score), s, [])) as ->.
    { destruct (user_answers s !! i) as [a|] eqn:Ha.
      - assert (is_dict q = true) as Hq.
        { apply (Hd i); [apply elem_of_cons; by left|by rewrite Ha]. }
        destruct q; try done. apply grade_question_dict.
      - rewrite grade_question_unanswered by done.
        unfold answered_correctly. simpl. by rewrite Ha. }
    rewrite IH.
    + destruct (answered_correctly (user_answers s) (i, q));
        cbn [length app]; rewrite ?Nat2Z.inj_succ; do 3 f_equal; lia.
    + intros j q' Hin. apply Hd. apply elem_of_cons. by right.
Qed.

(** A submit with answers that belong to dictionary items stores them
    with their score and asks for a rerun. *)
Lemma submit_answers_run answers s items :
  quiz_questions s = VList items ->
  (forall i, is_Some (answers !! i) -> exists d, items !! i = Some (VDict d)) ->
  submit_answers answers s = (Raise RerunException, graded answers s, []).
Proof.
  intros Hq Hd. unfold submit_answers, set_user_answers, set_quiz_score.
  unfold mbind at 1. unfold modify at 1. unfold mbind at 1. unfold get at 1.
  unfold mbind at 1. cbn [quiz_questions]. rewrite Hq.
  unfold lift, py_iter. unfold mbind at 1.
  rewrite grade_loop_run.
  - unfold mbind, modify, st_rerun, raise, graded, count_correct, quiz_items.
    simpl. by rewrite Hq.
  - intros i q Hin Ha. simpl in Ha. apply elem_of_enumerate in Hin.
    destruct (Hd i Ha) as [d Hi]. by simplify_eq.
Qed.

Lemma render_form_run w s items :
  quiz_questions s = VList items ->
  render_form w s = mfold (render_question w) ∅ (enumerate items) s.
Proof.
  intros Hq. unfold render_form, mbind, get, lift. rewrite Hq. simpl.
  by destruct (mfold _ _ _ s) as [[[a|e] s'] l].
Qed.

Lemma Forall_enumerate {A} (P : A -> Prop) (l : list A) :
  Forall (fun iq => P iq.2) (enumerate l) <-> Forall P l.
Proof.
  rewrite !Forall_forall. split.
  - intros H x Hx. apply list_elem_of_lookup in Hx as [i Hi].
    apply (H (i, x)). by apply elem_of_enumerate.
  - intros H [i x] Hx. apply elem_of_enumerate in Hx. simpl.
    apply H. by eapply list_elem_of_lookup_2.
Qed.

(** The form is drawn item by item, in order, when the test of every
    item returns: one question or one report of a malformed item for
    each. *)
Lemma render_form_draws w s items :
  quiz_questions s = VList items ->
  Forall (fun q => draws q = true) items ->
  render_form w s
  = (Ok (form_answers w items), s, map (form_event s) (enumerate items)).
Proof.
  intros Hq Hd. rewrite (render_form_run w s items Hq).
  apply render_loop_run.
  by apply (Forall_enumerate (fun q => draws q = true)).
Qed.

(** The form on a list of items: either drawing it stops with an
    exception and nothing changes, or it is drawn with the answers of
    [form_answers], and a click on its submit button stores these
    answers graded and asks for a rerun. *)
Lemma quiz_form_run w s items :
  quiz_questions s = VList items ->
  match outcome (render_form w s) with
  | Raise e => outcome (quiz_form w s) = Raise e /\ final (quiz_form w s) = s
  | Ok answers =>
      answers = form_answers w items /\
      Forall (fun q => draws q = true) items /\
      if submit_clicked w then
        outcome (quiz_form w s) = Raise RerunException /\
        final (quiz_form w s) = graded answers s
      else outcome (quiz_form w s) = Ok tt /\ final (quiz_form w s) = s
  end.
Proof.
  intros Hq.
  destruct (render_loop_run w (enumerate items) ∅ s) as (Hf & Ho & _).
  rewrite <- (render_form_run w s items Hq) in Hf, Ho.
  unfold quiz_form, mbind, emit.
  destruct (render_form w s) as [[[a|e] s1] l].
  - unfold outcome, final in *. simpl in Hf, Ho. subst s1.
    destruct (Ho a eq_refl) as [Ha Hd]. rewrite Ha. cbn [fst snd].
    split; [done|].
    split; [by apply (Forall_enumerate (fun q => draws q = true))|].
    destruct (submit_clicked w); [|done].
    rewrite (submit_answers_run _ s items Hq).
    + done.
    + apply form_answers_dict.
  - unfold outcome, final in *. simpl in *. by subst s1.
Qed.

(** The form draws a list of dictionaries item by item, in order: one
    question or one report of a malformed item for each, and no
    exception. *)
Lemma render_form_dict_items w s items :
  quiz_questions s = VList items ->
  Forall (fun q => is_dict q = true) items ->
  render_form w s
  = (Ok (form_answers w items), s, map (form_event s) (enumerate items)).
Proof.
  intros Hq Hd. apply render_form_draws; [done|].
  eapply Forall_impl; [exact Hd|]. apply draws_dict.
Qed.

(** ** Rules for [triple] and [preserves] *)

Lemma triple_bind {A B} P (m : M A) (k : A -> M B) R Q E :
  triple P m R E -> (forall a, triple (R a) (k a) Q E) ->
  triple P (mbind m k) Q E.
Proof.
  intros Hm Hk s HP. specialize (Hm s HP).
  unfold mbind, outcome, final in *.
  destruct (m s) as [[[a|e] s'] l]; simpl in *; [|done].
  specialize (Hk a s' Hm). unfold outcome, final in Hk.
  by destruct (k a s') as [[o s''] l'].
Qed.

Lemma preserves_bind {A B} R (m : M A) (k : A -> M B) :
  preserves R m -> (forall a, preserves R (k a)) -> preserves R (mbind m k).
Proof. intros Hm Hk. by eapply triple_bind. Qed.

Lemma preserves_mret {A} R (a : A) : preserves R (mret a).
Proof. by intros s Hs. Qed.

Lemma preserves_raise {A} R e : preserves R (@raise A e).
Proof. by intros s Hs. Qed.

Lemma preserves_lift {A} R (r : result A) : preserves R (lift r).
Proof. intros s Hs. unfold lift, outcome, final. by destruct r. Qed.

Lemma preserves_emit R e : preserves R (emit e).
Proof. by intros s Hs. Qed.

Lemma preserves_get R : preserves R get.
Proof. by intros s Hs. Qed.

Lemma preserves_modify (R : session_state -> Prop) f :
  (forall s, R s -> R (f s)) -> preserves R (modify f).
Proof. intros Hf s Hs. by apply Hf. Qed.

Lemma preserves_mfor {A} R (l : list A) body :
  (forall x, preserves R (body x)) -> preserves R (mfor l body).
Proof.
  intros Hb. induction l as [|x l IH]; simpl.
  - apply preserves_mret.
  - apply preserves_bind; [apply Hb|by intros _].
Qed.

Lemma preserves_mfold {A B} R (l : list A) (body : B -> A -> M B) b :
  (forall b x, preserves R (body b x)) -> preserves R (mfold body b l).
Proof.
  intros Hb. revert b. induction l as [|x l IH]; intros b; simpl.
  - apply preserves_mret.
  - apply preserves_bind; [apply Hb|done].
Qed.

(** Applies the rules to a computation built from the primitives. *)
Ltac preserves_step :=
  lazymatch goal with
  | |- preserves _ (mbind _ _) => apply preserves_bind; [|intros ?]
  | |- preserves _ (mret _) => apply preserves_mret
  | |- preserves _ (raise _) => apply preserves_raise
  | |- preserves _ st_rerun => apply preserves_raise
  | |- preserves _ (lift _) => apply preserves_lift
  | |- preserves _ (emit _) => apply preserves_emit
  | |- preserves _ get => apply preserves_get
  | |- preserves _ (mfor _ _) => apply preserves_mfor; intros ?
  | |- preserves _ (mfold _ _ _) => apply preserves_mfold; intros ? ?
  | |- preserves _ (match ?x with _ => _ end) => destruct x
  | |- preserves _ (let '(_, _) := ?x in _) => destruct x
  end.

Lemma preserves_set_chat_history R h :
  chat_blind R -> preserves R (set_chat_history h).
Proof. intros HR. apply preserves_modify. intros s. apply HR. Qed.

Lemma preserves_append_turn R t : chat_blind R -> preserves R (append_turn t).
Proof.
  intros HR. unfold append_turn. preserves_step; [preserves_step|].
  by apply preserves_set_chat_history.
Qed.

Lemma preserves_show_messages R : preserves R show_messages.
Proof. unfold show_messages. repeat preserves_step. Qed.

Lemma preserves_get_gemini_response R gem prompt h force_json :
  preserves R (get_gemini_response gem prompt h force_json).
Proof. unfold get_gemini_response. repeat preserves_step. Qed.

(** The chat tab and the history tab keep every property of the quiz
    part of the state. *)
Lemma preserves_tab1 R gem w : chat_blind R -> preserves R (tab1 gem w).
Proof.
  intros HR. unfold tab1. preserves_step; [apply preserves_show_messages|].
  destruct (chat_input w) as [[|c p]|]; try apply preserves_mret.
  unfold chat_send.
  repeat first [ apply preserves_append_turn; assumption
               | apply preserves_get_gemini_response
               | preserves_step ].
Qed.

Lemma preserves_tab3 R w : chat_blind R -> preserves R (tab3 w).
Proof.
  intros HR. unfold tab3.
  repeat first [ apply preserves_set_chat_history; assumption
               | apply preserves_show_messages
               | preserves_step ].
Qed.

(** After the generator the state is the old one, or holds a freshly
    stored value without answers and score. *)
Lemma generate_quiz_final gem w s :
  final (generate_quiz gem w s) = s \/
  (chat_history (final (generate_quiz gem w s)) = chat_history s /\
   user_answers (final (generate_quiz gem w s)) = ∅ /\
   quiz_score (final (generate_quiz gem w s)) = None /\
   (quiz_questions (final (generate_quiz gem w s)) = VNone \/
    exists l, quiz_questions (final (generate_quiz gem w s)) = VList l)).
Proof.
  destruct (topic w) as [|c t] eqn:Ht.
  - left. unfold generate_quiz. by rewrite Ht.
  - right. rewrite generate_quiz_run by (by rewrite Ht). cbv zeta.
    destruct (gem _) as [[|c' raw]|e]; [by eauto 10| |by eauto 10].
    destruct (clean_json_response_final (c' :: raw) (cleared s)) as [Hf [v Hv]].
    assert (v = VNone \/ exists l, v = VList l) as Hl.
    { destruct (clean_json_response_cases (c' :: raw) (cleared s))
        as [Hnone|(pre & mid & post & v' & _ & _ & _ & Hj & Ho)].
      - left. congruence.
      - right. assert (v' = v) as -> by congruence.
        by eapply json_loads_bracket. }
    destruct (clean_json_response (c' :: raw) (cleared s)) as [[o s1] l].
    unfold outcome, final in *. simpl in *. by subst o s1.
Qed.

(** A computation that never changes the session state keeps every
    property of it. *)
Lemma preserves_unchanged {A} R (m : M A) :
  (forall s, final (m s) = s) -> preserves R m.
Proof.
  intros Hm s Hs. rewrite Hm. by destruct (outcome (m s)).
Qed.

Lemma render_form_final w s : final (render_form w s) = s.
Proof.
  unfold render_form, mbind, get, lift.
  destruct (py_iter (quiz_questions s)) as [items|e]; [|done].
  destruct (render_loop_run w (enumerate items) ∅ s) as (Hf & _).
  unfold final in *. simpl.
  by destruct (mfold _ _ _ s) as [[[a|e] s'] l].
Qed.

Lemma preserves_render_form R w : preserves R (render_form w).
Proof. apply preserves_unchanged, render_form_final. Qed.

(** The part of [show_score] before the retake button. *)
Lemma preserves_show_answers R (items : list value) :
  preserves R (mfor (enumerate items) show_answer).
Proof. unfold show_answer. repeat preserves_step. Qed.

(** ** Invariants of the quiz state

    A property of the session state is kept by every run of the script
    with the widget values [w] when it does not look at the chat
    history, implies that [quiz_questions] is [None] or a list, holds of
    every state without answers and score, and is kept by grading the
    answers of a drawn form over a non-empty list of items when the
    submit button of [w] was clicked. *)
Section preservation.
Variable w : widgets.
Variable R : session_state -> Prop.

Hypothesis R_chat_blind : chat_blind R.
Hypothesis R_shape : forall s,
  R s -> quiz_questions s = VNone \/ exists l, quiz_questions s = VList l.
Hypothesis R_fresh : forall s,
  (quiz_questions s = VNone \/ exists l, quiz_questions s = VList l) ->
  user_answers s = ∅ -> quiz_score s = None -> R s.
Hypothesis R_graded : forall s items,
  R s -> quiz_questions s = VList items -> items <> [] ->
  Forall (fun q => draws q = true) items -> submit_clicked w = true ->
  R (graded (form_answers w items) s).

Lemma preserves_generate_quiz gem : preserves R (generate_quiz gem w).
Proof.
  intros s Hs.
  assert (R (final (generate_quiz gem w s))) as H.
  { destruct (generate_quiz_final gem w s) as [->|(_ & Ha & Hsc & Hq)];
      [done|by apply R_fresh]. }
  by destruct (outcome _).
Qed.

Lemma preserves_take_another_quiz : preserves R take_another_quiz.
Proof. intros s _. simpl. apply R_fresh; simpl; eauto. Qed.

Lemma preserves_quiz_form_block :
  preserves R
    (let* s := get in
     if py_truthy (quiz_questions s) then quiz_form w else mret tt).
Proof.
  intros s Hs.
  assert (R (final ((let* s := get in
                     if py_truthy (quiz_questions s) then quiz_form w
                     else mret tt) s))) as H.
  { unfold mbind, get, final.
    destruct (py_truthy (quiz_questions s)) eqn:Ht; [|done].
    destruct (R_shape s Hs) as [Hq|[items Hq]]; rewrite Hq in Ht; [done|].
    assert (items <> []) as Hne by (by destruct items).
    pose proof (quiz_form_run w s items Hq) as Hrun.
    unfold outcome, final in Hrun.
    destruct (quiz_form w s) as [[o s1] l]. simpl in *.
    destruct (render_form w s) as [[[a|e] s2] l2]; simpl in *.
    - destruct Hrun as (-> & Hd & Hrun).
      destruct (submit_clicked w) eqn:Hsc.
      + destruct Hrun as [_ ->]. by apply R_graded.
      + by destruct Hrun as [_ ->].
    - by destruct Hrun as [_ ->]. }
  by destruct (outcome _).
Qed.

Lemma preserves_show_score score : preserves R (show_score w score).
Proof.
  unfold show_score.
  repeat first [ apply preserves_take_another_quiz
               | apply preserves_show_answers
               | preserves_step ].
Qed.

Lemma preserves_tab2 gem : preserves R (tab2 gem w).
Proof.
  unfold tab2. apply preserves_bind.
  { destruct (generate_clicked w);
      [apply preserves_generate_quiz|apply preserves_mret]. }
  intros _. apply preserves_bind; [apply preserves_quiz_form_block|].
  intros _. repeat first [ apply preserves_show_score | preserves_step ].
Qed.

Lemma preserves_main gem : preserves R (main gem w).
Proof.
  unfold main. apply preserves_bind; [by apply preserves_tab1|].
  intros _. apply preserves_bind; [apply preserves_tab2|].
  intros _. by apply preserves_tab3.
Qed.

Lemma main_keeps gem s : R s -> R (final (main gem w s)).
Proof.
  intros Hs. pose proof (preserves_main gem s Hs) as H.
  by destruct (outcome _).
Qed.
End preservation.

(** *** The invariant [quiz_inv] *)

Lemma quiz_inv_no_answers s :
  (quiz_questions s = VNone \/ exists l, quiz_questions s = VList l) ->
  user_answers s = ∅ -> quiz_score s = None -> quiz_inv s.
Proof.
  intros Hq Ha Hs. split_and!; [done| |].
  - intros i [a Hi]. by rewrite Ha, lookup_empty in Hi.
  - intros sc Hsc. congruence.
Qed.

Lemma quiz_inv_graded w s items :
  quiz_questions s = VList items -> items <> [] ->
  quiz_inv (graded (form_answers w items) s).
Proof.
  intros Hq Hne. unfold quiz_inv, graded, quiz_items. simpl. rewrite Hq.
  split_and!; [eauto| |].
  - intros i Hi. apply form_answers_dict in Hi as [d Hd].
    by eapply lookup_lt_Some.
  - by intros sc [= <-].
Qed.

Lemma run_inv_main gem w s :
  quiz_inv s -> run_inv s w (final (main gem w s)).
Proof.
  intros Hinv. apply main_keeps.
  - intros h s' H. exact H.
  - intros s' [H _]. apply H.
  - intros s' Hq Ha Hsc. split; [by apply quiz_inv_no_answers|congruence].
  - intros s' items _ Hq Hne _ Hsub. split; [by apply quiz_inv_graded|done].
  - split; [done|congruence].
Qed.

Lemma quiz_inv_initial : quiz_inv initial_state.
Proof. apply quiz_inv_no_answers; simpl; eauto. Qed.

Lemma quiz_inv_run_session runs : quiz_inv (run_session runs).
Proof.
  unfold run_session. induction runs as [|[gem w] runs IH] using rev_ind.
  - apply quiz_inv_initial.
  - rewrite foldl_app. simpl. by apply run_inv_main.
Qed.

(** C9. The quiz part of the session state keeps its invariant:
    [quiz_questions] is [None] or a list; every index with a recorded
    answer is an index of that list; and a stored score comes with a
    non-empty list and is the count of its correctly answered items.
    The invariant holds initially, is kept by a generation, by the quiz
    form with its submit button, by a retake and by a whole run of the
    script, hence holds in every reachable state; and a run that starts
    without a score ends with one only if the submit button was
    clicked. *)
Theorem quiz_invariant :
  quiz_inv initial_state /\
  (forall gem w s, quiz_inv s -> quiz_inv (final (generate_quiz gem w s))) /\
  (forall w s,
     quiz_inv s -> py_truthy (quiz_questions s) = true ->
     quiz_inv (final (quiz_form w s))) /\
  (forall s, quiz_inv (final (take_another_quiz s))) /\
  (forall gem w s, quiz_inv s -> quiz_inv (final (main gem w s))) /\
  (forall s, reachable s -> quiz_inv s) /\
  (forall gem w s,
     quiz_inv s -> quiz_score s = None ->
     quiz_score (final (main gem w s)) <> None -> submit_clicked w = true).
Proof.
  split_and!.
  - apply quiz_inv_initial.
  - intros gem w s Hinv.
    destruct (generate_quiz_final gem w s) as [->|(_ & Ha & Hsc & Hq)];
      [done|by apply quiz_inv_no_answers].
  - intros w s Hinv Ht.
    destruct Hinv as (Hshape & Hkeys & Hscore).
    destruct Hshape as [Hq|[items Hq]]; rewrite Hq in Ht; [done|].
    assert (items <> []) as Hne by (by destruct items).
    pose proof (quiz_form_run w s items Hq) as Hrun.
    destruct (outcome (render_form w s)) as [a|e].
    + destruct Hrun as (-> & _ & Hrun). destruct (submit_clicked w).
      * destruct Hrun as [_ ->]. by apply quiz_inv_graded.
      * destruct Hrun as [_ ->]. split_and!; eauto.
    + destruct Hrun as [_ ->]. split_and!; eauto.
  - intros s. apply quiz_inv_no_answers; simpl; eauto.
  - intros gem w s Hinv. by apply run_inv_main.
  - intros s [runs ->]. apply quiz_inv_run_session.
  - intros gem w s Hinv Hnone Hsome.
    by apply (run_inv_main gem w s Hinv).
Qed.

Lemma quiz_invariant_witness :
  quiz_inv (run_session sample_session) /\
  submit_clicked (sample_widgets false true) = true.
Proof.
  split.
  - apply (proj1 (proj2 (proj2 (proj2 (proj2 (proj2 quiz_invariant)))))).
    exists sample_session. reflexivity.
  - apply (proj2 (proj2 (proj2 (proj2 (proj2 (proj2 quiz_invariant)))))
             sample_gemini (sample_widgets false true)
             (run_session [(sample_gemini, sample_widgets true false)])).
    + apply (proj1 (proj2 (proj2 (proj2 (proj2 (proj2 quiz_invariant)))))).
      exists [(sample_gemini, sample_widgets true false)]. reflexivity.
    + vm_compute. reflexivity.
    + vm_compute. discriminate.
Defined.

(** The form on a list of dictionaries ends normally or, after a
    submit, with the request for a rerun. *)
Lemma quiz_form_dict_items w s items :
  quiz_questions s = VList items ->
  Forall (fun q => is_dict q = true) items ->
  outcome (quiz_form w s)
  = if submit_clicked w then Raise RerunException else Ok tt.
Proof.
  intros Hq Hd. pose proof (quiz_form_run w s items Hq) as H.
  rewrite (render_form_dict_items w s items Hq Hd) in H.
  unfold outcome at 1 in H. simpl in H. destruct H as (_ & _ & H).
  by destruct (submit_clicked w); destruct H as [-> _].
Qed.

(** ** Runs of the script that use one widget *)

Lemma ends_bind {A B} (m : M A) (k : A -> M B) s a s1 o s2 :
  ends m s (Ok a) s1 -> ends (k a) s1 o s2 -> ends (mbind m k) s o s2.
Proof.
  unfold ends, outcome, final, mbind. intros [Ho Hf] [Ho' Hf'].
  destruct (m s) as [[r s'] l]. simpl in *. subst r s'.
  by destruct (k a s1) as [[r s'] l'].
Qed.

Lemma ends_bind_raise {A B} (m : M A) (k : A -> M B) s e s1 :
  ends m s (Raise e) s1 -> ends (mbind m k) s (Raise e) s1.
Proof.
  unfold ends, outcome, final, mbind. intros [Ho Hf].
  destruct (m s) as [[r s'] l]. simpl in *. by subst r s'.
Qed.

Lemma ends_get s : ends get s (Ok s) s.
Proof. done. Qed.

Lemma ends_emit e s : ends (emit e) s (Ok tt) s.
Proof. done. Qed.

Lemma ends_mret {A} (a : A) s : ends (mret a) s (Ok a) s.
Proof. done. Qed.

Lemma ends_lift {A} (r : result A) s : ends (lift r) s r s.
Proof. done. Qed.

(** Runs the primitive at the head of a sequence. *)
Ltac ends_step :=
  lazymatch goal with
  | |- ends (mbind get _) _ _ _ =>
      eapply ends_bind; [apply ends_get|]; cbn beta
  | |- ends (mbind (emit _) _) _ _ _ => eapply ends_bind; [apply ends_emit|]
  | |- ends (mbind (mret _) _) _ _ _ => eapply ends_bind; [apply ends_mret|]
  | |- ends (mbind (lift _) _) _ _ _ =>
      eapply ends_bind; [apply ends_lift|]; cbn beta
  | |- ends (mret _) _ _ _ => apply ends_mret
  end.

Lemma ends_mfor {A} (l : list A) (body : A -> M unit) s :
  (forall x, x ∈ l -> ends (body x) s (Ok tt) s) ->
  ends (mfor l body) s (Ok tt) s.
Proof.
  induction l as [|x l IH]; intros Hb; simpl; [done|].
  eapply ends_bind.
  - apply Hb. by left.
  - apply IH. intros y Hy. apply Hb. by right.
Qed.

(** The message list is shown without an exception when every turn
    has a part. *)
Lemma show_messages_ends s : chat_ok s -> ends show_messages s (Ok tt) s.
Proof.
  intros Hc. unfold show_messages. ends_step.
  apply ends_mfor. intros t Ht. unfold chat_ok in Hc.
  rewrite Forall_forall in Hc. specialize (Hc t Ht).
  destruct (parts t); [done|apply ends_emit].
Qed.

Lemma tab1_no_input gem w s :
  chat_ok s -> chat_input w = None -> ends (tab1 gem w) s (Ok tt) s.
Proof.
  intros Hc Hi. unfold tab1. eapply ends_bind; [by apply show_messages_ends|].
  rewrite Hi. apply ends_mret.
Qed.

Lemma show_answer_ends s i q :
  (is_Some (user_answers s !! i) -> is_dict q = true) ->
  ends (show_answer (i, q)) s (Ok tt) s.
Proof.
  intros Hd. unfold show_answer, mbind, get, lift, ends, outcome, final.
  simpl. destruct (user_answers s !! i) as [a|]; [|done].
  destruct q; try (by discriminate Hd). simpl.
  destruct (dict_get (lit "correct_answer") d) as [c|]; [|done]. simpl.
  destruct (dict_get (lit "question") d) as [qu|]; [|done]. simpl.
  by destruct (py_eq a c).
Qed.

(** In a graded state the score is shown without an exception, and a
    click on the retake button discards the quiz. *)
Lemma show_score_retake w s sc :
  quiz_wf s -> quiz_score s = Some sc -> retake_clicked w = true ->
  ends (show_score w sc) s (Raise RerunException) (cleared s).
Proof.
  intros [Hshape Hwf] Hsc Hr. rewrite Hsc in Hwf.
  destruct Hwf as (Hne & _ & [w' Ha] & _).
  unfold quiz_items in *.
  destruct Hshape as [Hq|[items Hq]]; rewrite Hq in *; [done|].
  unfold show_score. ends_step. rewrite Hq. simpl py_len. simpl py_iter.
  do 3 ends_step. eapply ends_bind.
  - apply ends_mfor. intros [i q] Hin. apply elem_of_enumerate in Hin.
    apply show_answer_ends. rewrite Ha. intros Hi.
    apply form_answers_dict in Hi as [d Hd]. by simplify_eq.
  - by rewrite Hr.
Qed.

(** In a graded state a run in which only the retake button is used
    ends with the request for a rerun and the quiz discarded. *)
Lemma tab2_retake gem w s sc :
  quiz_wf s -> quiz_score s = Some sc ->
  generate_clicked w = false -> submit_clicked w = false ->
  retake_clicked w = true ->
  ends (tab2 gem w) s (Raise RerunException) (cleared s).
Proof.
  intros Hwf Hsc Hg Hs Hr. pose proof Hwf as [Hshape Hwf'].
  rewrite Hsc in Hwf'. destruct Hwf' as (Hne & Hd & _).
  unfold quiz_items in *.
  destruct Hshape as [Hq|[items Hq]]; rewrite Hq in *; [done|].
  unfold tab2. rewrite Hg. ends_step.
  eapply ends_bind.
  - ends_step. rewrite Hq.
    assert (py_truthy (VList items) = true) as -> by (by destruct items).
    pose proof (quiz_form_run w s items Hq) as Hrun.
    rewrite (render_form_draws w s items Hq Hd), Hs in Hrun.
    unfold outcome at 1 in Hrun. simpl in Hrun.
    destruct Hrun as (_ & _ & Ho & Hf). by split.
  - ends_step. rewrite Hsc. by apply show_score_retake.
Qed.

Lemma main_retake gem w s sc :
  quiz_wf s -> chat_ok s -> quiz_score s = Some sc ->
  chat_input w = None -> generate_clicked w = false ->
  submit_clicked w = false -> retake_clicked w = true ->
  ends (main gem w) s (Raise RerunException) (cleared s).
Proof.
  intros Hwf Hc Hsc Hi Hg Hs Hr. unfold main.
  eapply ends_bind; [by apply tab1_no_input|].
  apply ends_bind_raise. by eapply tab2_retake.
Qed.

(** *** The rest of a run *)

Lemma final_bind_unchanged {A B} (m : M A) (k : A -> M B) s :
  (forall a, preserves (eq (final (m s))) (k a)) ->
  final (mbind m k s) = final (m s).
Proof.
  intros Hk. unfold mbind, final in *.
  destruct (m s) as [[[a|e] s1] l]; simpl in *; [|done].
  specialize (Hk a s1 eq_refl). unfold outcome, final in Hk.
  destruct (k a s1) as [[[b|e] s2] l2]; simpl in *; done.
Qed.

Lemma final_bind_ends {A B} (m : M A) (k : A -> M B) s a :
  ends m s (Ok a) s ->
  outcome (mbind m k s) = outcome (k a s) /\
  final (mbind m k s) = final (k a s).
Proof.
  unfold ends, outcome, final, mbind. intros [Ho Hf].
  destruct (m s) as [[r s'] l]. simpl in *. subst r s'.
  by destruct (k a s) as [[r s'] l'].
Qed.

Lemma preserves_quiz_form_unused R w :
  submit_clicked w = false -> preserves R (quiz_form w).
Proof.
  intros Hs. unfold quiz_form. rewrite Hs.
  repeat first [ apply preserves_render_form | preserves_step ].
Qed.

Lemma preserves_show_score_unused R w score :
  retake_clicked w = false -> preserves R (show_score w score).
Proof.
  intros Hr. unfold show_score. rewrite Hr.
  repeat first [ apply preserves_show_answers | preserves_step ].
Qed.

Lemma preserves_score_block_unused R w :
  retake_clicked w = false ->
  preserves R
    (let* s := get in
     match quiz_score s with
     | Some score => show_score w score
     | None => mret tt
     end).
Proof.
  intros Hr.
  repeat first [ by apply preserves_show_score_unused | preserves_step ].
Qed.

Lemma preserves_form_block_unused R w :
  submit_clicked w = false ->
  preserves R
    (let* s := get in
     if py_truthy (quiz_questions s) then quiz_form w else mret tt).
Proof.
  intros Hs.
  repeat first [ by apply preserves_quiz_form_unused | preserves_step ].
Qed.

Lemma preserves_tab2_unused R gem w :
  generate_clicked w = false -> submit_clicked w = false ->
  retake_clicked w = false -> preserves R (tab2 gem w).
Proof.
  intros Hg Hs Hr. unfold tab2. rewrite Hg.
  apply preserves_bind; [apply preserves_mret|]. intros _.
  apply preserves_bind; [by apply preserves_form_block_unused|]. intros _.
  by apply preserves_score_block_unused.
Qed.

Lemma preserves_tab3_unused R w :
  clear_clicked w = false -> preserves R (tab3 w).
Proof.
  intros Hc. unfold tab3. rewrite Hc.
  repeat first [ apply preserves_show_messages | preserves_step ].
Qed.

Lemma preserves_tab1_unused R gem w :
  chat_input w = None -> preserves R (tab1 gem w).
Proof.
  intros Hi. unfold tab1. rewrite Hi.
  repeat first [ apply preserves_show_messages | preserves_step ].
Qed.

(** A run in which no widget is used, such as the run [st.rerun()]
    starts, leaves the session state as it is. *)
Lemma main_idle gem w s : idle w -> final (main gem w s) = s.
Proof.
  intros (Hi & Hg & Hs & Hr & Hc).
  assert (preserves (eq s) (main gem w)) as H.
  { unfold main. apply preserves_bind; [by apply preserves_tab1_unused|].
    intros _. apply preserves_bind; [by apply preserves_tab2_unused|].
    intros _. by apply preserves_tab3_unused. }
  specialize (H s eq_refl). by destruct (outcome _).
Qed.

(** A run in which only the chat input is used ends in the state the
    handler of a chat message leaves. *)
Lemma main_chat_send gem w s c p :
  chat_ok s -> chat_input w = Some (c :: p) ->
  generate_clicked w = false -> submit_clicked w = false ->
  retake_clicked w = false -> clear_clicked w = false ->
  final (main gem w s) = final (chat_send gem (c :: p) s).
Proof.
  intros Hok Hi Hg Hs Hr Hc. unfold main.
  rewrite final_bind_unchanged.
  - unfold tab1. rewrite Hi.
    apply (proj2 (final_bind_ends show_messages
                    (fun _ => chat_send gem (c :: p)) s tt
                    (show_messages_ends s Hok))).
  - intros _. apply preserves_bind; [by apply preserves_tab2_unused|].
    intros _. by apply preserves_tab3_unused.
Qed.

(** A run in which only the generate button is used ends in the state
    the generator leaves. *)
Lemma main_generate gem w s :
  chat_ok s -> chat_input w = None -> generate_clicked w = true ->
  submit_clicked w = false -> retake_clicked w = false ->
  clear_clicked w = false ->
  final (main gem w s) = final (generate_quiz gem w s).
Proof.
  intros Hok Hi Hg Hs Hr Hc. unfold main.
  destruct (final_bind_ends (tab1 gem w) (fun _ => tab2 gem w;; tab3 w) s tt)
    as [_ ->]; [by apply tab1_no_input|].
  rewrite final_bind_unchanged; [|intros _; by apply preserves_tab3_unused].
  unfold tab2. rewrite Hg. apply final_bind_unchanged. intros _.
  apply preserves_bind; [by apply preserves_form_block_unused|]. intros _.
  by apply preserves_score_block_unused.
Qed.


(** *** Reachable states *)

Lemma quiz_wf_fresh s :
  (quiz_questions s = VNone \/ exists l, quiz_questions s = VList l) ->
  user_answers s = ∅ -> quiz_score s = None -> quiz_wf s.
Proof. intros Hq Ha Hs. split; [done|]. by rewrite Hs. Qed.

Lemma quiz_wf_graded w s items :
  quiz_questions s = VList items -> items <> [] ->
  Forall (fun q => draws q = true) items ->
  quiz_wf (graded (form_answers w items) s).
Proof.
  intros Hq Hne Hd. unfold quiz_wf, graded, quiz_items. simpl. rewrite Hq.
  split; [eauto|]. split_and!; eauto.
Qed.

Lemma quiz_wf_main gem w s : quiz_wf s -> quiz_wf (final (main gem w s)).
Proof.
  apply main_keeps.
  - intros h s' H. exact H.
  - intros s' [H _]. apply H.
  - apply quiz_wf_fresh.
  - intros s' items _ Hq Hne Hd _. by apply quiz_wf_graded.
Qed.

Lemma preserves_chat_ok_append t :
  parts t <> [] -> preserves chat_ok (append_turn t).
Proof.
  intros Ht s Hs. simpl. unfold chat_ok in *. simpl.
  apply Forall_app. split; [done|]. by apply Forall_singleton.
Qed.

(** The quiz tab keeps every property of the chat history. *)
Lemma preserves_tab2_quiz_blind R gem w :
  quiz_blind R -> preserves R (tab2 gem w).
Proof.
  intros HR.
  assert (forall q, preserves R (set_quiz_questions q)) as Hq.
  { intros q. apply preserves_modify. intros s. apply HR. }
  assert (forall a, preserves R (set_user_answers a)) as Ha.
  { intros a. apply preserves_modify. intros s. apply HR. }
  assert (forall sc, preserves R (set_quiz_score sc)) as Hsc.
  { intros sc. apply preserves_modify. intros s. apply HR. }
  unfold tab2, generate_quiz, quiz_form, show_score, take_another_quiz,
    submit_answers, clear_quiz, grade_question.
  repeat first [ apply Hq | apply Ha | apply Hsc
               | apply preserves_get_gemini_response
               | apply preserves_unchanged; intros ?;
                 apply clean_json_response_final
               | apply preserves_render_form
               | apply preserves_show_answers
               | preserves_step ].
Qed.

Lemma quiz_blind_chat_ok : quiz_blind chat_ok.
Proof. intros q a sc s H. exact H. Qed.

Lemma preserves_chat_ok_main gem w : preserves chat_ok (main gem w).
Proof.
  unfold main. apply preserves_bind.
  { unfold tab1, chat_send.
    repeat first [ apply preserves_chat_ok_append; discriminate
                 | apply preserves_show_messages
                 | apply preserves_get_gemini_response
                 | preserves_step ]. }
  intros _. apply preserves_bind.
  { apply preserves_tab2_quiz_blind, quiz_blind_chat_ok. }
  intros _. unfold tab3.
  repeat first [ apply preserves_modify; intros s _; apply Forall_nil_2
               | apply preserves_show_messages
               | preserves_step ].
Qed.

(** Every reachable state is well formed. *)
Lemma reachable_wf s : reachable s -> quiz_wf s /\ chat_ok s.
Proof.
  intros [runs ->]. unfold run_session.
  induction runs as [|[gem w] runs [IHq IHc]] using rev_ind.
  - split; [|apply Forall_nil_2]. apply quiz_wf_fresh; simpl; eauto.
  - rewrite foldl_app. simpl. split; [by apply quiz_wf_main|].
    pose proof (preserves_chat_ok_main gem w _ IHc) as H.
    by destruct (outcome _).
Qed.

(** ** The chat tab *)

(** C3. What a chat message puts on the wire: the history handed to the
    chat session already ends with the new user turn, and the session
    sends the prompt after it, so the service receives the new prompt
    twice, for every history and prompt. *)
Theorem chat_send_delivers_prompt_twice gem (p : str) s :
  calls (trace (chat_send gem p s))
  = [SendMessage (chat_history s ++ [user_turn p]) p] /\
  delivered_contents (SendMessage (chat_history s ++ [user_turn p]) p)
  = chat_history s ++ [user_turn p; user_turn p] /\
  delivered_contents (SendMessage (chat_history s ++ [user_turn p]) p)
  <> chat_history s ++ [user_turn p].
Proof.
  split_and!.
  - unfold chat_send, get_gemini_response, mbind, emit, append_turn, get,
      set_chat_history, modify, mret, calls, trace. simpl.
    destruct (gem _) as [[|c t]|e]; reflexivity.
  - simpl. by rewrite <- app_assoc.
  - simpl. rewrite <- app_assoc. intros H. apply app_inv_head in H.
    discriminate.
Qed.

(** The handler of a chat message when the call fails. *)
Lemma chat_send_failure gem (p : str) s details :
  gem (SendMessage (chat_history s ++ [user_turn p]) p) = ApiError details ->
  outcome (chat_send gem p s) = Ok tt /\
  final (chat_send gem p s)
  = with_history (chat_history s ++ [user_turn p]) s /\
  errors (trace (chat_send gem p s)) = [GeminiApiError details].
Proof.
  intros H. unfold user_turn in *.
  unfold chat_send, get_gemini_response, mbind, emit, append_turn, get,
    set_chat_history, modify, mret, errors, outcome, final, trace. simpl.
  rewrite H. simpl. done.
Qed.

(** C4. When the call of a chat message fails, the history keeps the
    user turn just appended and gets no model turn, and the quiz part
    of the state stays as it is; the handler goes on without a rerun,
    having shown the error. The same holds of the state after a whole
    run from a reachable state in which only the chat input is used. *)
Theorem chat_send_failure_keeps_user_turn :
  (forall gem (p : str) s details,
     gem (SendMessage (chat_history s ++ [user_turn p]) p)
     = ApiError details ->
     outcome (chat_send gem p s) = Ok tt /\
     chat_history (final (chat_send gem p s))
     = chat_history s ++ [user_turn p] /\
     quiz_questions (final (chat_send gem p s)) = quiz_questions s /\
     user_answers (final (chat_send gem p s)) = user_answers s /\
     quiz_score (final (chat_send gem p s)) = quiz_score s /\
     errors (trace (chat_send gem p s)) = [GeminiApiError details]) /\
  (forall gem w s c p details,
     reachable s -> chat_input w = Some (c :: p) ->
     generate_clicked w = false -> submit_clicked w = false ->
     retake_clicked w = false -> clear_clicked w = false ->
     gem (SendMessage (chat_history s ++ [user_turn (c :: p)]) (c :: p))
     = ApiError details ->
     final (main gem w s)
     = with_history (chat_history s ++ [user_turn (c :: p)]) s).
Proof.
  split.
  - intros gem p s details H.
    destruct (chat_send_failure gem p s details H) as (Ho & Hf & He).
    rewrite Ho, Hf, He. done.
  - intros gem w s c p details Hs Hi Hg Hsub Hr Hc H.
    apply reachable_wf in Hs as [_ Hok].
    rewrite (main_chat_send gem w s c p) by done.
    by destruct (chat_send_failure gem (c :: p) s details H) as (_ & -> & _).
Qed.

Lemma chat_send_failure_keeps_user_turn_witness :
  let gem : gemini := fun _ => ApiError (lit "503 unavailable") in
  let w := {| chat_input := Some (lit "Hi"); topic := [];
              generate_clicked := false; radio_choice := fun _ => 0%nat;
              submit_clicked := false; retake_clicked := false;
              clear_clicked := false |} in
  (outcome (chat_send gem (lit "Hi") initial_state) = Ok tt /\
   chat_history (final (chat_send gem (lit "Hi") initial_state))
   = [user_turn (lit "Hi")] /\
   quiz_questions (final (chat_send gem (lit "Hi") initial_state))
   = VList [] /\
   user_answers (final (chat_send gem (lit "Hi") initial_state)) = ∅ /\
   quiz_score (final (chat_send gem (lit "Hi") initial_state)) = None /\
   errors (trace (chat_send gem (lit "Hi") initial_state))
   = [GeminiApiError (lit "503 unavailable")]) /\
  final (main gem w initial_state)
  = with_history [user_turn (lit "Hi")] initial_state.
Proof.
  intros gem w. split.
  - exact (proj1 chat_send_failure_keeps_user_turn gem (lit "Hi")
             initial_state (lit "503 unavailable") eq_refl).
  - apply (proj2 chat_send_failure_keeps_user_turn gem w initial_state
             72%N (lit "i") (lit "503 unavailable"));
      try reflexivity.
    exists []. reflexivity.
Defined.

(** ** The quiz tab *)

(** The generator after a failed call, or after a reply that the
    sanitizer turns into [None] or into an empty list. *)
Lemma generate_quiz_failure gem w s :
  topic w <> [] ->
  (exists details, gem (quiz_request (topic w)) = ApiError details) \/
  (exists raw v,
     gem (quiz_request (topic w)) = Text raw /\ raw <> [] /\
     outcome (clean_json_response raw s) = Ok v /\
     (v = VNone \/ v = VList [])) ->
  outcome (generate_quiz gem w s) = Ok tt /\
  (final (generate_quiz gem w s) = cleared s \/
   final (generate_quiz gem w s) = with_questions VNone (cleared s)) /\
  errors (trace (generate_quiz gem w s)) <> [].
Proof.
  intros Ht H. rewrite generate_quiz_run by done. cbv zeta.
  destruct H as [(e & ->)|(raw & v & -> & Hraw & Hv & Hfalse)].
  - split_and!; [done|by left|done].
  - destruct raw as [|c raw]; [done|].
    rewrite (clean_json_response_outcome _ _ (cleared s)) in Hv.
    destruct (clean_json_response_final (c :: raw) (cleared s)) as [Hf _].
    destruct (clean_json_response (c :: raw) (cleared s)) as [[o s1] l].
    unfold outcome, final in Hv, Hf. simpl in Hv, Hf. subst o s1.
    assert (py_truthy v = false) as Hp by (by destruct Hfalse as [->| ->]).
    rewrite Hp. unfold outcome, final, trace. simpl.
    split_and!; [done| |].
    + destruct Hfalse as [->| ->]; [by right|by left].
    + change ((cleared s, Call (quiz_request (topic w)))
              :: l ++ [(with_questions v (cleared s), StError NoValidQuizData)])
        with ([(cleared s, Call (quiz_request (topic w)))]
              ++ l ++ [(with_questions v (cleared s), StError NoValidQuizData)]).
      rewrite !errors_app. simpl. intros H.
      apply app_eq_nil in H as [_ H]. discriminate.
Qed.

(** C6. A reply without text is a failed generation that nobody is
    told about. The sanitizer fails on the empty text, and the generator
    leaves the quiz empty, with no answers and no score; but the test
    [if raw_response:] passes over the sanitizer and over the error
    for quiz data that is not valid alike, and [get_gemini_response]
    showed none, since the call did not fail. The quiz tab sends its
    request and shows nothing, for every topic, from every state and
    whatever its other buttons hold; so does a whole run. For a failed
    call and for a reply with text see [generate_quiz_failure]. *)
Theorem generate_quiz_empty_reply_shows_no_error :
  (forall s, clean_json_response [] s = (Ok VNone, s, [])) /\
  (forall gem w s,
     generate_clicked w = true -> topic w <> [] ->
     gem (quiz_request (topic w)) = Text [] ->
     tab2 gem w s
     = (Ok tt, cleared s, [(cleared s, Call (quiz_request (topic w)))]) /\
     errors (trace (tab2 gem w s)) = [] /\
     quiz_items (final (tab2 gem w s)) = []) /\
  (forall w c t,
     let w' := {| chat_input := None; topic := c :: t;
                  generate_clicked := true; radio_choice := radio_choice w;
                  submit_clicked := submit_clicked w;
                  retake_clicked := retake_clicked w;
                  clear_clicked := false |} in
     main (fun _ => Text []) w' initial_state
     = (Ok tt, initial_state,
        [(initial_state, Call (quiz_request (c :: t)));
         (initial_state, StInfoHistoryEmpty)])).
Proof.
  assert (forall gem w s,
            generate_clicked w = true -> topic w <> [] ->
            gem (quiz_request (topic w)) = Text [] ->
            tab2 gem w s
            = (Ok tt, cleared s, [(cleared s, Call (quiz_request (topic w)))]))
    as Htab.
  { intros gem w s Hg Ht Hgem. unfold tab2. rewrite Hg.
    unfold mbind at 1. rewrite generate_quiz_run by done. cbv zeta.
    rewrite Hgem. reflexivity. }
  split_and!.
  - reflexivity.
  - intros gem w s Hg Ht Hgem. by rewrite (Htab gem w s Hg Ht Hgem).
  - intros w c t w'. unfold main.
    unfold mbind at 1. change (tab1 _ w' initial_state)
      with (Ok tt, initial_state, @nil (session_state * event)). cbv iota.
    unfold mbind at 1. by rewrite (Htab _ w' initial_state).
Qed.

Lemma generate_quiz_empty_reply_shows_no_error_witness :
  let gem : gemini := fun _ => Text [] in
  let w := sample_widgets true false in
  let s := run_session sample_session in
  tab2 gem w s
  = (Ok tt, cleared s, [(cleared s, Call (quiz_request (lit "Rocq")))]) /\
  errors (trace (tab2 gem w s)) = [] /\
  quiz_items (final (tab2 gem w s)) = [].
Proof.
  intros gem w s.
  apply (proj1 (proj2 generate_quiz_empty_reply_shows_no_error) gem w s);
    [reflexivity|discriminate|reflexivity].
Defined.

(** C7. A generation with a topic makes its one call to the service in
    a session state whose quiz part is empty; "Take Another Quiz?"
    leaves that same empty quiz part and asks for a rerun, also as a
    whole run from a reachable state with a score in which only that
    button is used; and what a generation does depends on the session
    state through the chat history only, so it starts alike after a
    retake and after anything else. *)
Theorem generate_and_retake_clear_quiz :
  (forall gem w s,
     topic w <> [] ->
     calls_with_state (trace (generate_quiz gem w s))
     = [(cleared s, quiz_request (topic w))] /\
     quiz_cleared (cleared s)) /\
  (forall s,
     take_another_quiz s = (Raise RerunException, cleared s, []) /\
     quiz_cleared (final (take_another_quiz s))) /\
  (forall gem w s sc,
     reachable s -> quiz_score s = Some sc ->
     chat_input w = None -> generate_clicked w = false ->
     submit_clicked w = false -> retake_clicked w = true ->
     outcome (main gem w s) = Raise RerunException /\
     final (main gem w s) = cleared s) /\
  (forall gem w s s',
     topic w <> [] -> chat_history s = chat_history s' ->
     generate_quiz gem w s = generate_quiz gem w s').
Proof.
  split_and!.
  - intros gem w s Ht. split; [|done].
    rewrite generate_quiz_run by done. cbv zeta.
    destruct (gem _) as [[|c raw]|e]; [reflexivity| |reflexivity].
    pose proof (clean_json_response_calls (c :: raw) (cleared s)) as Hc.
    destruct (clean_json_response (c :: raw) (cleared s)) as [[[q|e] s1] l];
      unfold trace in *; simpl in *.
    + rewrite calls_with_state_app, Hc. by destruct (py_truthy q).
    + by rewrite Hc.
  - done.
  - intros gem w s sc Hs Hsc Hi Hg Hsub Hr.
    apply reachable_wf in Hs as [Hwf Hok].
    by apply (main_retake gem w s sc).
  - intros gem w s s' Ht Hh. rewrite !generate_quiz_run by done.
    unfold cleared. by rewrite Hh.
Qed.

Lemma generate_and_retake_clear_quiz_witness :
  let w := sample_widgets true false in
  let retake := {| chat_input := None; topic := lit "Rocq";
                   generate_clicked := false; radio_choice := fun _ => 0%nat;
                   submit_clicked := false; retake_clicked := true;
                   clear_clicked := false |} in
  let s := run_session sample_session in
  (calls_with_state (trace (generate_quiz sample_gemini w s))
   = [(cleared s, quiz_request (lit "Rocq"))] /\
   quiz_cleared (cleared s)) /\
  (outcome (main sample_gemini retake s) = Raise RerunException /\
   final (main sample_gemini retake s) = cleared s) /\
  generate_quiz sample_gemini w (final (take_another_quiz s))
  = generate_quiz sample_gemini w s.
Proof.
  intros w retake s. split; [|split].
  - apply (proj1 generate_and_retake_clear_quiz sample_gemini w s).
    discriminate.
  - apply (proj1 (proj2 (proj2 generate_and_retake_clear_quiz))
             sample_gemini retake s 1); try reflexivity.
    by exists sample_session.
  - apply (proj2 (proj2 (proj2 generate_and_retake_clear_quiz)));
      [discriminate|reflexivity].
Defined.

(** A click on the submit button of a drawn form. *)
Lemma quiz_form_submit w s items answers :
  quiz_questions s = VList items ->
  submit_clicked w = true ->
  outcome (render_form w s) = Ok answers ->
  outcome (quiz_form w s) = Raise RerunException /\
  final (quiz_form w s) = graded answers s.
Proof.
  intros Hq Hs Hr.
  pose proof (quiz_form_run w s items Hq) as H. rewrite Hr, Hs in H.
  by destruct H as (_ & _ & Ho & Hf).
Qed.



(** C8. A reply whose array holds a number before a well-formed
    question passes the sanitizer, and then the loop of the form stops
    with a [TypeError] at the number: nothing is reported as skipped,
    the well-formed question is not drawn, and the run that generated
    the quiz ends with that exception. *)
Theorem quiz_form_stops_at_non_object_item :
  outcome (clean_json_response mixed_reply initial_state)
  = Ok (VList [VInt 7; one_question]) /\
  (forall w s,
     let s' := with_questions (VList [VInt 7; one_question]) s in
     outcome (quiz_form w s') = Raise TypeError /\
     final (quiz_form w s') = s' /\
     errors (trace (quiz_form w s')) = [] /\
     trace (render_form w s') = []) /\
  (forall w c t,
     let w' := {| chat_input := None; topic := c :: t;
                  generate_clicked := true; radio_choice := radio_choice w;
                  submit_clicked := submit_clicked w;
                  retake_clicked := retake_clicked w;
                  clear_clicked := clear_clicked w |} in
     outcome (main (fun _ => Text mixed_reply) w' initial_state)
     = Raise TypeError /\
     quiz_questions (final (main (fun _ => Text mixed_reply) w' initial_state))
     = VList [VInt 7; one_question]).
Proof.
  split_and!.
  - reflexivity.
  - intros w s. split_and!; reflexivity.
  - intros w c t w'. unfold main, tab2.
    unfold mbind at 1. change (tab1 _ w' initial_state)
      with (Ok tt, initial_state, @nil (session_state * event)). cbv iota.
    unfold mbind at 1. unfold mbind at 1.
    cbn [generate_clicked w']. rewrite generate_quiz_run by done.
    split; reflexivity.
Qed.

(** * Further properties *)

(** ** What a run sends to the service *)

Lemma trace_bind {A B} (m : M A) (k : A -> M B) s :
  trace (mbind m k s)
  = trace (m s) ++ match outcome (m s) with
                   | Ok a => trace (k a (final (m s)))
                   | Raise _ => []
                   end.
Proof.
  unfold mbind, trace, outcome, final.
  destruct (m s) as [[[a|e] s1] l]; simpl; [|by rewrite app_nil_r].
  by destruct (k a s1) as [[r s2] l2].
Qed.

Lemma outcome_bind {A B} (m : M A) (k : A -> M B) s :
  outcome (mbind m k s)
  = match outcome (m s) with
    | Ok a => outcome (k a (final (m s)))
    | Raise e => Raise e
    end.
Proof.
  unfold mbind, outcome, final.
  destruct (m s) as [[[a|e] s1] l]; simpl; [|done].
  by destruct (k a s1) as [[r s2] l2].
Qed.

Lemma final_bind {A B} (m : M A) (k : A -> M B) s :
  final (mbind m k s)
  = match outcome (m s) with
    | Ok a => final (k a (final (m s)))
    | Raise e => final (m s)
    end.
Proof.
  unfold mbind, outcome, final.
  destruct (m s) as [[[a|e] s1] l]; simpl; [|done].
  by destruct (k a s1) as [[r s2] l2].
Qed.

Lemma calls_app l1 l2 : calls (l1 ++ l2) = calls l1 ++ calls l2.
Proof. apply omap_app. Qed.

Lemma quiet_bind {A B} (m : M A) (k : A -> M B) :
  quiet m -> (forall a, quiet (k a)) -> quiet (mbind m k).
Proof.
  intros Hm Hk s. rewrite trace_bind, calls_app, Hm.
  destruct (outcome (m s)); [apply Hk|done].
Qed.

Lemma quiet_mret {A} (a : A) : quiet (mret a).
Proof. done. Qed.

Lemma quiet_raise {A} e : quiet (@raise A e).
Proof. done. Qed.

Lemma quiet_lift {A} (r : result A) : quiet (lift r).
Proof. done. Qed.

Lemma quiet_get : quiet get.
Proof. done. Qed.

Lemma quiet_modify f : quiet (modify f).
Proof. done. Qed.

Lemma quiet_emit e : (forall r, e <> Call r) -> quiet (emit e).
Proof. intros He s. destruct e; try done. by destruct (He r). Qed.

Lemma quiet_mfor {A} (l : list A) body :
  (forall x, quiet (body x)) -> quiet (mfor l body).
Proof.
  intros Hb. induction l as [|x l IH]; simpl; [apply quiet_mret|].
  apply quiet_bind; [apply Hb|by intros _].
Qed.

Lemma quiet_mfold {A B} (l : list A) (body : B -> A -> M B) b :
  (forall b x, quiet (body b x)) -> quiet (mfold body b l).
Proof.
  intros Hb. revert b. induction l as [|x l IH]; intros b; simpl;
    [apply quiet_mret|].
  apply quiet_bind; [apply Hb|apply IH].
Qed.

(** Splits a sequence or a case distinction of a computation that
    sends nothing. *)
Ltac quiet_step :=
  lazymatch goal with
  | |- quiet (mbind _ _) => apply quiet_bind; [|intros ?]
  | |- quiet (mret _) => apply quiet_mret
  | |- quiet (raise _) => apply quiet_raise
  | |- quiet st_rerun => apply quiet_raise
  | |- quiet (lift _) => apply quiet_lift
  | |- quiet (emit _) => apply quiet_emit; intros ?; discriminate
  | |- quiet get => apply quiet_get
  | |- quiet (modify _) => apply quiet_modify
  | |- quiet (mfor _ _) => apply quiet_mfor; intros ?
  | |- quiet (mfold _ _ _) => apply quiet_mfold; intros ? ?
  | |- quiet (match ?x with _ => _ end) => destruct x
  | |- quiet (let '(_, _) := ?x in _) => destruct x
  end.

Lemma quiet_show_messages : quiet show_messages.
Proof. unfold show_messages. repeat quiet_step. Qed.

Lemma quiet_clean_json_response raw : quiet (clean_json_response raw).
Proof.
  intros s. pose proof (clean_json_response_calls raw s) as H.
  unfold calls, calls_with_state in *.
  induction (trace (clean_json_response raw s)) as [|[s' []] l IH];
    simpl in *; try done; by apply IH.
Qed.

Lemma quiet_quiz_form w : quiet (quiz_form w).
Proof.
  unfold quiz_form, render_form, render_question, submit_answers,
    grade_question, set_user_answers, set_quiz_score.
  repeat quiet_step.
Qed.

Lemma quiet_show_score w score : quiet (show_score w score).
Proof.
  unfold show_score, show_answer, take_another_quiz, clear_quiz,
    set_quiz_questions, set_user_answers, set_quiz_score.
  repeat quiet_step.
Qed.

Lemma quiet_tab3 w : quiet (tab3 w).
Proof.
  unfold tab3, set_chat_history.
  repeat first [ apply quiet_show_messages | quiet_step ].
Qed.

(** The requests of the generator. *)
Lemma generate_quiz_calls gem w s :
  calls (trace (generate_quiz gem w s))
  = match topic w with
    | [] => []
    | _ => [quiz_request (topic w)]
    end.
Proof.
  destruct (topic w) as [|c t] eqn:Ht.
  { unfold generate_quiz. by rewrite Ht. }
  rewrite <- Ht. rewrite generate_quiz_run by (by rewrite Ht).
  cbv zeta. destruct (gem _) as [[|c' raw]|e]; [done| |done].
  pose proof (quiet_clean_json_response (c' :: raw) (cleared s)) as Hq.
  destruct (clean_json_response _ _) as [[[q|e] s1] l]; unfold trace in *;
    simpl in *.
  - rewrite calls_app, Hq. by destruct (py_truthy q).
  - by rewrite Hq.
Qed.

(** The quiz tab and the history tab send the request of the generator
    and nothing else. *)
Lemma tab2_tab3_calls gem w s :
  calls (trace ((tab2 gem w ;; tab3 w) s)) = generate_calls w.
Proof.
  assert (forall (m : M unit) (k : unit -> M unit) s0,
            (forall a, quiet (k a)) ->
            calls (trace (mbind m k s0)) = calls (trace (m s0))) as Hrest.
  { intros m k s0 Hk. rewrite trace_bind, calls_app.
    destruct (outcome (m s0)); by rewrite ?Hk, app_nil_r. }
  rewrite Hrest by (intros _; apply quiet_tab3).
  unfold tab2. rewrite Hrest.
  - unfold generate_calls. destruct (generate_clicked w); [|done].
    rewrite generate_quiz_calls. by destruct (topic w).
  - intros _.
    repeat first [ apply quiet_quiz_form | apply quiet_show_score
                 | quiet_step ].
Qed.

(** ** The chat tab, case by case *)

(** The handler of a chat message, case by case on the reply of the
    service. *)
Lemma chat_send_run gem (p : str) s :
  chat_send gem p s =
  let s1 := with_history (chat_history s ++ [user_turn p]) s in
  let shown := (s, ChatMessage user p) in
  let call := (s1, Call (chat_request s p)) in
  match gem (chat_request s p) with
  | ApiError e => (Ok tt, s1, shown :: call :: api_error_events s1 p false e)
  | Text [] => (Ok tt, s1, [shown; call])
  | Text (c :: t) =>
      (Raise RerunException,
       with_history (chat_history s ++ [user_turn p; model_turn (c :: t)]) s,
       [shown; call; (s1, ChatMessage model (c :: t))])
  end.
Proof.
  unfold chat_request, user_turn, model_turn.
  unfold chat_send, get_gemini_response, mbind, emit, append_turn, get,
    set_chat_history, modify, mret, st_rerun, raise, with_history. simpl.
  destruct (gem _) as [[|c t]|e]; simpl; try reflexivity.
  by rewrite <- app_assoc.
Qed.

(** The chat tab in a state whose turns all have a part. *)
Lemma tab1_run gem w s :
  chat_ok s ->
  let m : M unit := match chat_input w with
                    | Some (c :: p) => chat_send gem (c :: p)
                    | _ => mret tt
                    end in
  outcome (tab1 gem w s) = outcome (m s) /\
  final (tab1 gem w s) = final (m s) /\
  calls (trace (tab1 gem w s)) = calls (trace (m s)).
Proof.
  intros Hok m. pose proof (show_messages_ends s Hok) as [Ho Hf].
  unfold tab1. fold m.
  rewrite outcome_bind, final_bind, trace_bind, calls_app, Ho, Hf.
  by rewrite quiet_show_messages.
Qed.

(** X1. A run contacts the service only when it is asked to, and at
    most once for each purpose: it sends the request of the chat
    message when the chat input holds a text, and the request of the
    generator when the generate button was clicked with a topic and the
    run was not ended before by the rerun after a chat reply. Nothing
    else is sent, whatever the other widgets hold. *)
Theorem service_is_contacted_only_when_asked gem w s :
  chat_ok s ->
  calls (trace (main gem w s))
  = match chat_input w with
    | Some (c :: p) =>
        chat_request s (c :: p)
        :: match gem (chat_request s (c :: p)) with
           | Text (_ :: _) => []
           | _ => generate_calls w
           end
    | _ => generate_calls w
    end.
Proof.
  intros Hok. unfold main. rewrite trace_bind, calls_app.
  destruct (tab1_run gem w s Hok) as (-> & -> & ->).
  destruct (chat_input w) as [[|c p]|]; simpl;
    try apply tab2_tab3_calls.
  rewrite chat_send_run. cbv zeta.
  destruct (gem _) as [[|c' t]|e]; simpl; try done;
    by rewrite tab2_tab3_calls.
Qed.

Lemma service_is_contacted_only_when_asked_witness :
  let gem : gemini := fun r =>
    match r with
    | SendMessage _ _ => ApiError (lit "503 unavailable")
    | GenerateContent _ _ => Text one_question_json
    end in
  let w := {| chat_input := Some (lit "Hi"); topic := lit "Rocq";
              generate_clicked := true; radio_choice := fun _ => 0%nat;
              submit_clicked := false; retake_clicked := false;
              clear_clicked := false |} in
  calls (trace (main gem w initial_state))
  = [SendMessage [user_turn (lit "Hi")] (lit "Hi");
     quiz_request (lit "Rocq")].
Proof.
  intros gem w.
  apply (service_is_contacted_only_when_asked gem w initial_state).
  apply Forall_nil_2.
Defined.

(** X2. A chat message that gets a reply with text ends the run at
    once: the history grows by the user turn and the model turn, the
    quiz part of the state stays as it is, and the run ends with the
    request for a rerun before the other tabs are reached, so that a
    button of the quiz tab or of the history tab clicked in the same
    run has no effect. *)
Theorem chat_reply_ends_run gem w s c p c' r :
  chat_ok s -> chat_input w = Some (c :: p) ->
  gem (chat_request s (c :: p)) = Text (c' :: r) ->
  outcome (main gem w s) = Raise RerunException /\
  final (main gem w s)
  = with_history
      (chat_history s ++ [user_turn (c :: p); model_turn (c' :: r)]) s.
Proof.
  intros Hok Hi Hg. split.
  - unfold main. rewrite outcome_bind.
    destruct (tab1_run gem w s Hok) as (-> & _ & _).
    by rewrite Hi, chat_send_run, Hg.
  - unfold main. rewrite final_bind.
    destruct (tab1_run gem w s Hok) as (-> & -> & _).
    by rewrite Hi, chat_send_run, Hg.
Qed.

Lemma chat_reply_ends_run_witness :
  let w := {| chat_input := Some (lit "Hi"); topic := lit "Rocq";
              generate_clicked := true; radio_choice := fun _ => 0%nat;
              submit_clicked := true; retake_clicked := true;
              clear_clicked := true |} in
  let gem : gemini := fun _ => Text (lit "Hello!") in
  outcome (main gem w initial_state) = Raise RerunException /\
  final (main gem w initial_state)
  = with_history [user_turn (lit "Hi"); model_turn (lit "Hello!")]
      initial_state.
Proof.
  intros w gem.
  apply (chat_reply_ends_run gem w initial_state 72%N (lit "i")
           72%N (lit "ello!")); [apply Forall_nil_2|reflexivity..].
Defined.

(** X3. A reply without text is a silent failure of the chat: the
    handler keeps the user turn in the history, adds no model turn,
    shows no error and asks for no rerun; after a run in which only the
    chat input is used the session state differs from the one before
    by that user turn only. *)
Theorem chat_empty_reply_is_silent gem w s c p :
  chat_ok s -> chat_input w = Some (c :: p) ->
  generate_clicked w = false -> submit_clicked w = false ->
  retake_clicked w = false -> clear_clicked w = false ->
  gem (chat_request s (c :: p)) = Text [] ->
  outcome (chat_send gem (c :: p) s) = Ok tt /\
  errors (trace (chat_send gem (c :: p) s)) = [] /\
  final (main gem w s)
  = with_history (chat_history s ++ [user_turn (c :: p)]) s.
Proof.
  intros Hok Hi Hg Hs Hr Hc Hgem.
  rewrite (main_chat_send gem w s c p) by done.
  by rewrite chat_send_run, Hgem.
Qed.

Lemma chat_empty_reply_is_silent_witness :
  let w := {| chat_input := Some (lit "Hi"); topic := [];
              generate_clicked := false; radio_choice := fun _ => 0%nat;
              submit_clicked := false; retake_clicked := false;
              clear_clicked := false |} in
  let gem : gemini := fun _ => Text [] in
  outcome (chat_send gem (lit "Hi") initial_state) = Ok tt /\
  errors (trace (chat_send gem (lit "Hi") initial_state)) = [] /\
  final (main gem w initial_state)
  = with_history [user_turn (lit "Hi")] initial_state.
Proof.
  intros w gem.
  apply (chat_empty_reply_is_silent gem w initial_state 72%N (lit "i"));
    [apply Forall_nil_2|reflexivity..].
Defined.

(** ** The shape of the chat history *)

Lemma replies_follow_prompts_user b h t :
  role t = user ->
  replies_follow_prompts b (h ++ [t]) = replies_follow_prompts b h.
Proof.
  intros Ht. revert b. induction h as [|x h IH]; intros b; simpl.
  - by rewrite Ht.
  - destruct (role x); by rewrite IH.
Qed.

Lemma replies_follow_prompts_exchange b h t t' :
  role t = user -> role t' = model ->
  replies_follow_prompts b (h ++ [t; t']) = replies_follow_prompts b h.
Proof.
  intros Ht Ht'. revert b. induction h as [|x h IH]; intros b; simpl.
  - by rewrite Ht, Ht'.
  - destruct (role x); by rewrite IH.
Qed.

Lemma quiz_blind_chat_shape : quiz_blind chat_shape.
Proof. intros q a sc s H. exact H. Qed.

Lemma preserves_chat_shape_chat_send gem c p :
  preserves chat_shape (chat_send gem (c :: p)).
Proof.
  intros s [Hr Hp].
  assert (chat_shape (final (chat_send gem (c :: p) s))) as H.
  { rewrite chat_send_run. cbv zeta. unfold chat_shape.
    destruct (gem _) as [[|c' t]|e]; unfold final; simpl;
      rewrite ?replies_follow_prompts_user,
        ?replies_follow_prompts_exchange by done;
      (split; [done|]); apply Forall_app; (split; [done|]);
      repeat constructor; simpl; eauto. }
  by destruct (outcome _).
Qed.

Lemma preserves_chat_shape_main gem w : preserves chat_shape (main gem w).
Proof.
  unfold main. apply preserves_bind.
  { unfold tab1.
    repeat first [ apply preserves_chat_shape_chat_send
                 | apply preserves_show_messages
                 | preserves_step ]. }
  intros _. apply preserves_bind.
  { apply preserves_tab2_quiz_blind, quiz_blind_chat_shape. }
  intros _. unfold tab3.
  repeat first [ apply preserves_modify; intros s _; by split
               | apply preserves_show_messages
               | preserves_step ].
Qed.

(** X4. The chat history of a session always has the shape the chat
    tab gives it: every turn has exactly one part, which is not empty,
    and a model turn only comes directly after a user turn, so the
    history never starts with a model turn and never holds two model
    turns in a row. *)
Theorem chat_history_shape runs : chat_shape (run_session runs).
Proof.
  unfold run_session.
  induction runs as [|[gem w] runs IH] using rev_ind.
  - split; [done|apply Forall_nil_2].
  - rewrite foldl_app. simpl.
    pose proof (preserves_chat_shape_main gem w _ IH) as H.
    by destruct (outcome _).
Qed.

(** ** The sanitizer on every text *)

(** What the sanitizer returns is [None] or a list. *)
Lemma clean_json_response_value raw s :
  outcome (clean_json_response raw s) = Ok VNone \/
  exists l, outcome (clean_json_response raw s) = Ok (VList l).
Proof.
  destruct (clean_json_response_cases raw s)
    as [H|(pre & mid & post & v & _ & _ & _ & Hv & Ho)]; [by left|].
  apply json_loads_bracket in Hv as [l ->]. right. by exists l.
Qed.

(** X5. The sanitizer never raises, never changes the session state
    and sends nothing. It returns a list or [None] and shows at most
    one error, and it shows one exactly when it returns [None] for a
    text that has both square brackets: a list comes without a
    message, and so does the [None] for a text that lacks one of the
    brackets. Which of the two messages of the function is shown
    depends on the exception of the decoder and is left open here. *)
Theorem clean_json_response_never_raises (raw : str) s :
  final (clean_json_response raw s) = s /\
  calls (trace (clean_json_response raw s)) = [] /\
  (outcome (clean_json_response raw s) = Ok VNone \/
   exists l, outcome (clean_json_response raw s) = Ok (VList l)) /\
  (errors (trace (clean_json_response raw s)) = [] \/
   exists m, errors (trace (clean_json_response raw s)) = [m]) /\
  (errors (trace (clean_json_response raw s)) <> [] <->
   outcome (clean_json_response raw s) = Ok VNone /\
   91%N ∈ raw /\ 93%N ∈ raw).
Proof.
  split; [apply clean_json_response_final|].
  split; [apply quiet_clean_json_response|].
  split; [apply clean_json_response_value|].
  unfold clean_json_response.
  destruct (Z.eqb_spec (find 91 raw) (-1)) as [Hs|Hs].
  { split; [by left|]. split; [done|]. intros (_ & Hin & _).
    by apply find_absent in Hs. }
  destruct (Z.eqb_spec (rfind 93 raw) (-1)) as [He|He].
  { split; [by left|]. split; [done|]. intros (_ & _ & Hin).
    by apply rfind_absent in He. }
  simpl negb. cbv iota.
  assert (91%N ∈ raw) as Hin.
  { destruct (decide (91%N ∈ raw)) as [|Hn]; [done|].
    by apply find_absent in Hn. }
  assert (93%N ∈ raw) as Hin'.
  { destruct (decide (93%N ∈ raw)) as [|Hn]; [done|].
    by apply rfind_absent in Hn. }
  destruct (json_loads _) as [v|e] eqn:E.
  - split; [by left|]. split; [done|]. intros (Hv & _).
    destruct (bracket_slice raw Hs He)
      as [Hnil|(pre & mid & post & _ & _ & _ & Hsl)].
    + by rewrite Hnil, json_loads_empty in E.
    + rewrite Hsl in E. apply json_loads_bracket in E as [l ->]. done.
  - apply json_loads_raises in E as ->.
    split; [right; by eexists|]. by split.
Qed.

(** X6. When the last closing square bracket of a text stands before
    its first opening one, the slice between them is empty, which is
    not valid JSON: the sanitizer returns [None] and shows the error of
    a failed parse. *)
Theorem clean_json_response_brackets_in_wrong_order (raw : str) s :
  0 <= rfind 93 raw < find 91 raw ->
  outcome (clean_json_response raw s) = Ok VNone /\
  errors (trace (clean_json_response raw s)) = [QuizParseFailed].
Proof.
  intros H. unfold clean_json_response.
  destruct (Z.eqb_spec (find 91 raw) (-1)) as [Hs|Hs]; [lia|].
  destruct (Z.eqb_spec (rfind 93 raw) (-1)) as [He|He]; [lia|].
  simpl negb. cbv iota.
  rewrite py_slice_empty by lia. by rewrite json_loads_empty.
Qed.

Lemma clean_json_response_brackets_in_wrong_order_witness :
  outcome (clean_json_response (lit "Sorry ] no quiz [ today") initial_state)
  = Ok VNone /\
  errors (trace (clean_json_response (lit "Sorry ] no quiz [ today")
                   initial_state))
  = [QuizParseFailed].
Proof.
  apply (clean_json_response_brackets_in_wrong_order
           (lit "Sorry ] no quiz [ today") initial_state).
  vm_compute. split; [discriminate|reflexivity].
Defined.

(** The sanitizer on a text whose first opening and last closing
    square bracket are known. *)
Lemma clean_json_response_embedded (pre mid post : str) s :
  (91%N ∉ pre) -> (93%N ∉ post) ->
  let raw := pre ++ (91%N :: mid ++ [93%N]) ++ post in
  clean_json_response raw s =
  match json_loads (91%N :: mid ++ [93%N]) with
  | Ok v => (Ok v, s, [])
  | Raise _ =>
      (Ok VNone, s,
       [(s, StError QuizParseFailed);
        (s, Print (lit "--- JSON PARSE FAILED --- " ++ [10%N]
                   ++ lit "Raw text: " ++ raw ++ [10%N]
                   ++ lit "-------------------------"))])
  end.
Proof.
  intros Hpre Hpost raw. unfold clean_json_response.
  assert (find 91 raw = Z.of_nat (length pre)) as ->.
  { unfold raw. simpl. by apply find_app. }
  assert (rfind 93 raw = Z.of_nat (length (pre ++ 91%N :: mid))) as ->.
  { unfold raw.
    replace (pre ++ (91%N :: mid ++ [93%N]) ++ post)
      with ((pre ++ 91%N :: mid) ++ 93%N :: post).
    - by apply rfind_app.
    - simpl. rewrite <- !app_assoc. reflexivity. }
  destruct (Z.eqb_spec (Z.of_nat (length pre)) (-1)); [lia|].
  destruct (Z.eqb_spec (Z.of_nat (length (pre ++ 91%N :: mid))) (-1)); [lia|].
  simpl negb. cbv iota.
  replace (Z.of_nat (length (pre ++ 91%N :: mid)) + 1)
    with (Z.of_nat (length pre + length (91%N :: mid ++ [93%N]))).
  - unfold raw at 1. rewrite py_slice_middle.
    destruct (json_loads _) as [v|e] eqn:E; [done|].
    by apply json_loads_raises in E as ->.
  - rewrite !length_app. simpl. rewrite length_app. simpl. lia.
Qed.

(** X7. The sanitizer looks only at the text from the first opening to
    the last closing square bracket: prose without an opening bracket
    before it and prose without a closing bracket after it change
    neither what is returned nor which errors are shown, also when
    that text is not valid JSON. *)
Theorem clean_json_response_ignores_surroundings (pre mid post : str) s :
  (91%N ∉ pre) -> (93%N ∉ post) ->
  outcome (clean_json_response (pre ++ (91%N :: mid ++ [93%N]) ++ post) s)
  = outcome (clean_json_response (91%N :: mid ++ [93%N]) s) /\
  errors (trace (clean_json_response
                   (pre ++ (91%N :: mid ++ [93%N]) ++ post) s))
  = errors (trace (clean_json_response (91%N :: mid ++ [93%N]) s)).
Proof.
  intros Hpre Hpost.
  pose proof (clean_json_response_embedded pre mid post s Hpre Hpost) as H.
  pose proof (clean_json_response_embedded [] mid [] s) as H'.
  cbv zeta in H, H'. rewrite app_nil_l, app_nil_r in H'.
  rewrite H, H' by apply not_elem_of_nil.
  by destruct (json_loads _).
Qed.

Lemma clean_json_response_ignores_surroundings_witness :
  outcome (clean_json_response
             (lit "Here: " ++ (91%N :: lit "1, 2," ++ [93%N]) ++ lit " bye")
             initial_state)
  = outcome (clean_json_response (91%N :: lit "1, 2," ++ [93%N]) initial_state)
  /\
  errors (trace (clean_json_response
             (lit "Here: " ++ (91%N :: lit "1, 2," ++ [93%N]) ++ lit " bye")
             initial_state))
  = errors (trace (clean_json_response (91%N :: lit "1, 2," ++ [93%N])
                     initial_state)).
Proof.
  apply (clean_json_response_ignores_surroundings
           (lit "Here: ") (lit "1, 2,") (lit " bye") initial_state);
    vm_compute; intros H; by repeat (inversion H as [|? ? ? H']; clear H;
                                       rename H' into H).
Defined.

(** ** Answers and scores *)

Lemma st_radio_elem options choice :
  options <> [] -> st_radio options choice ∈ options.
Proof.
  destruct options as [|first rest]; [done|]. intros _.
  unfold st_radio. apply list_elem_of_In.
  destruct (Nat.lt_ge_cases choice (length (first :: rest))) as [Hlt|Hge].
  - by apply nth_In.
  - rewrite nth_overflow by done. by left.
Qed.

Lemma position_of_lookup c options k :
  position_of c options = Some k ->
  exists o, options !! k = Some o /\ py_eq o c = true.
Proof.
  revert k. induction options as [|o r IH]; intros k; simpl; [done|].
  destruct (py_eq o c) eqn:E.
  - intros [= <-]. by exists o.
  - destruct (position_of c r) as [k'|]; simpl; [|done].
    intros [= <-]. by apply IH.
Qed.

Lemma position_of_elem c options o :
  o ∈ options -> py_eq o c = true -> is_Some (position_of c options).
Proof.
  intros Hin Ho. induction Hin as [o r|o o' r Hin IH]; simpl.
  - by rewrite Ho.
  - destruct (py_eq o' c); [done|]. destruct (IH Ho) as [k ->]. done.
Qed.

(** An item that a form counts as answered correctly is answerable. *)
Lemma answered_answerable w items i q :
  items !! i = Some q ->
  answered_correctly (form_answers w items) (i, q) = true ->
  answerable q = true.
Proof.
  intros Hi. unfold answered_correctly, answerable, correct_position. simpl.
  rewrite form_answers_lookup, Hi.
  destruct (well_formed_question q) as [[question options]|]; [|done].
  destruct (correct_answer q) as [c|]; [|done]. intros Heq.
  apply bool_decide_eq_true.
  destruct options as [|first rest]; [simpl in Heq; by rewrite Heq|].
  eapply position_of_elem; [|exact Heq]. by apply st_radio_elem.
Qed.

(** With the best selections a form answers every answerable item
    correctly. *)
Lemma best_choice_answers w items i q :
  items !! i = Some q -> answerable q = true ->
  answered_correctly
    (form_answers (with_choice (best_choice items) w) items) (i, q) = true.
Proof.
  intros Hi Hk. apply bool_decide_eq_true in Hk as [k Hk].
  unfold answered_correctly. simpl.
  rewrite form_answers_lookup, Hi. simpl.
  unfold best_choice. rewrite Hi. simpl. rewrite Hk. simpl.
  unfold correct_position in Hk.
  destruct (well_formed_question q) as [[question options]|]; [|done].
  destruct (correct_answer q) as [c|]; [|by destruct options].
  destruct options as [|first rest];
    [revert Hk; simpl; by destruct c|].
  apply position_of_lookup in Hk as (o & Ho & Heq).
  unfold st_radio. by rewrite (nth_lookup_Some _ _ _ _ Ho).
Qed.

Lemma filter_length_le {A} (f g : A -> bool) (l : list A) :
  (forall x, x ∈ l -> f x = true -> g x = true) ->
  (length (List.filter f l) <= length (List.filter g l))%nat.
Proof.
  induction l as [|x l IH]; intros H; simpl; [done|].
  assert (length (List.filter f l) <= length (List.filter g l))%nat as Hl.
  { apply IH. intros y Hy. apply H. by right. }
  destruct (f x) eqn:Hf.
  - rewrite (H x) by (done || by left). simpl. lia.
  - destruct (g x); simpl; lia.
Qed.

Lemma filter_enumerate_length {A} (f : A -> bool) (l : list A) :
  length (List.filter (fun iq => f iq.2) (enumerate l))
  = length (List.filter f l).
Proof.
  unfold enumerate.
  assert (forall g : nat -> nat,
            length (List.filter (fun iq : nat * A => f iq.2)
                      (imap (fun i x => (g i, x)) l))
            = length (List.filter f l)) as H.
  { induction l as [|x l IH]; intros g; simpl; [done|].
    specialize (IH (g ∘ S)). destruct (f x); simpl; by rewrite <- IH. }
  apply (H id).
Qed.

(** The count of correct answers of a form is at most the number of
    answerable items. *)
Lemma count_correct_le w items :
  0 <= count_correct items (form_answers w items)
  <= Z.of_nat (length (List.filter answerable items)).
Proof.
  unfold count_correct. split; [lia|].
  rewrite <- (filter_enumerate_length answerable). apply inj_le.
  apply filter_length_le. intros [i q] Hin.
  apply elem_of_enumerate in Hin. by apply answered_answerable.
Qed.

Lemma filter_length_all {A} (f : A -> bool) (l : list A) :
  (length (List.filter f l) <= length l)%nat.
Proof.
  induction l as [|x l IH]; simpl; [done|]. destruct (f x); simpl; lia.
Qed.

(** X8. The score of a session is never negative and never more than
    the number of quiz items; more precisely it is at most the number
    of answerable items: the well-formed items with a correct answer
    that equals one of their options, or that is [None] when there are
    no options. An item that is not answerable is never counted,
    whatever the user selects. *)
Theorem score_bounds runs sc :
  quiz_score (run_session runs) = Some sc ->
  0 <= sc
  <= Z.of_nat (length (List.filter answerable (quiz_items (run_session runs))))
  /\ (length (List.filter answerable (quiz_items (run_session runs)))
      <= length (quiz_items (run_session runs)))%nat.
Proof.
  intros Hsc. split; [|apply filter_length_all].
  destruct (reachable_wf (run_session runs)) as [[_ Hwf] _]; [by exists runs|].
  rewrite Hsc in Hwf. destruct Hwf as (_ & _ & [w Ha] & ->).
  rewrite Ha. apply count_correct_le.
Qed.

Lemma score_bounds_witness :
  0 <= 1
  <= Z.of_nat (length (List.filter answerable
                         (quiz_items (run_session sample_session))))
  /\ (length (List.filter answerable
                (quiz_items (run_session sample_session)))
      <= length (quiz_items (run_session sample_session)))%nat.
Proof.
  apply (score_bounds sample_session 1). vm_compute. reflexivity.
Defined.

(** X9. The bound of the score is reached: for a quiz whose items are
    objects, submitting the form with the best selection in every radio
    stores as score the number of answerable items, so a quiz whose
    items are all answerable can be passed with full marks. *)
Theorem best_choice_scores_every_answerable_item w s items :
  quiz_questions s = VList items ->
  Forall (fun q => is_dict q = true) items ->
  submit_clicked w = true ->
  quiz_score (final (quiz_form (with_choice (best_choice items) w) s))
  = Some (Z.of_nat (length (List.filter answerable items))).
Proof.
  intros Hq Hd Hs. set (w' := with_choice (best_choice items) w).
  pose proof (render_form_dict_items w' s items Hq Hd) as Hr.
  destruct (quiz_form_submit w' s items (form_answers w' items) Hq Hs)
    as [_ ->]; [by rewrite Hr|].
  unfold graded, quiz_items. simpl. rewrite Hq. f_equal.
  apply Z.le_antisymm; [apply count_correct_le|].
  unfold count_correct. rewrite <- (filter_enumerate_length answerable).
  apply inj_le, filter_length_le. intros [i q] Hin Ha.
  apply elem_of_enumerate in Hin. by apply best_choice_answers.
Qed.

Lemma best_choice_scores_every_answerable_item_witness :
  quiz_score
    (final (quiz_form
              (with_choice (best_choice [one_question; VDict []])
                 (sample_widgets false true))
              (with_questions (VList [one_question; VDict []])
                 initial_state)))
  = Some (Z.of_nat (length (List.filter answerable
                              [one_question; VDict []]))).
Proof.
  apply (best_choice_scores_every_answerable_item
           (sample_widgets false true)
           (with_questions (VList [one_question; VDict []]) initial_state)
           [one_question; VDict []]);
    [reflexivity|by repeat constructor|reflexivity].
Defined.

(** X10. Every answer a form records is one of the options of its
    item: an answer is recorded only for an item that is a dictionary
    with a question and a list of options, and it is the selected
    element of that list, or [None] when the list is empty. *)
Theorem recorded_answers_are_options w s items answers i a :
  quiz_questions s = VList items ->
  outcome (render_form w s) = Ok answers ->
  answers !! i = Some a ->
  exists q question options,
    items !! i = Some q /\
    well_formed_question q = Some (question, options) /\
    (options = [] /\ a = VNone \/ a ∈ options).
Proof.
  intros Hq Ho Ha. rewrite (render_form_run w s items Hq) in Ho.
  destruct (render_loop_run w (enumerate items) ∅ s) as (_ & Hl & _).
  destruct (Hl answers Ho) as [-> _]. fold (form_answers w items) in Ha.
  rewrite form_answers_lookup in Ha.
  destruct (items !! i) as [q|]; [|done].
  destruct (well_formed_question q) as [[question options]|] eqn:Hw; [|done].
  exists q, question, options. split_and!; [done..|].
  injection Ha as <-. destruct options as [|first rest]; [by left|].
  right. by apply st_radio_elem.
Qed.

Lemma recorded_answers_are_options_witness :
  exists q question options,
    [one_question] !! 0%nat = Some q /\
    well_formed_question q = Some (question, options) /\
    (options = [] /\ VStr (lit "B") = VNone \/ VStr (lit "B") ∈ options).
Proof.
  apply (recorded_answers_are_options
           (with_choice (fun _ => 1%nat) (sample_widgets false false))
           (with_questions (VList [one_question]) initial_state)
           [one_question] {[ 0%nat := VStr (lit "B") ]} 0%nat);
    reflexivity.
Defined.

(** X11. On a quiz whose items are all objects the loop of the form
    never stops early: it handles every item, in order, showing either
    the question or the message that the malformed item is skipped,
    and it records an answer exactly for the well-formed items. *)
Theorem render_form_handles_every_object w s items :
  quiz_questions s = VList items ->
  Forall (fun q => is_dict q = true) items ->
  outcome (render_form w s) = Ok (form_answers w items) /\
  final (render_form w s) = s /\
  length (trace (render_form w s)) = length items /\
  forall i q,
    items !! i = Some q ->
    trace (render_form w s) !! i = Some (form_event s (i, q)) /\
    (is_Some (form_answers w items !! i)
     <-> is_Some (well_formed_question q)).
Proof.
  intros Hq Hd. rewrite (render_form_dict_items w s items Hq Hd).
  unfold outcome, final, trace. simpl. split_and!; [done..| |].
  - unfold enumerate. by rewrite length_map, length_imap.
  - intros i q Hi. split.
    + unfold enumerate. by rewrite list_lookup_fmap, list_lookup_imap, Hi.
    + rewrite form_answers_lookup, Hi.
      destruct (well_formed_question q) as [[question options]|];
        split; intros [x Hx]; by eauto.
Qed.

Lemma render_form_handles_every_object_witness :
  let w := sample_widgets false false in
  let items := [VDict []; one_question] in
  let s := with_questions (VList items) initial_state in
  outcome (render_form w s) = Ok (form_answers w items) /\
  final (render_form w s) = s /\
  length (trace (render_form w s)) = length items /\
  forall i q,
    items !! i = Some q ->
    trace (render_form w s) !! i = Some (form_event s (i, q)) /\
    (is_Some (form_answers w items !! i)
     <-> is_Some (well_formed_question q)).
Proof.
  intros w items s.
  apply (render_form_handles_every_object w s items);
    [reflexivity|by repeat constructor].
Defined.

(** ** The score and its breakdown *)

Lemma shown_correct_app l1 l2 :
  shown_correct (l1 ++ l2) = shown_correct l1 ++ shown_correct l2.
Proof. apply omap_app. Qed.

(** What the breakdown shows for an item: nothing for an item without
    an answer, one line for an answered well-formed item, headed as
    correct exactly when the grading counts it. *)
Lemma show_answer_run s i q :
  (is_Some (user_answers s !! i) -> is_Some (well_formed_question q)) ->
  outcome (show_answer (i, q) s) = Ok tt /\
  final (show_answer (i, q) s) = s /\
  length (shown_correct (trace (show_answer (i, q) s)))
  = if answered_correctly (user_answers s) (i, q) then 1%nat else 0%nat.
Proof.
  intros Hw. unfold show_answer, answered_correctly, mbind, get, lift,
    outcome, final, trace. simpl.
  destruct (user_answers s !! i) as [a|]; [|done].
  destruct Hw as [[question options] Hw]; [by eexists|].
  unfold well_formed_question in Hw. destruct q; try done. simpl.
  destruct (dict_get (lit "correct_answer") d) as [c|]; [|done]. simpl.
  destruct (dict_get (lit "question") d) as [qu|]; [|done]. simpl.
  by destruct (py_eq a c).
Qed.

Lemma show_answers_run s iqs :
  (forall i q, (i, q) ∈ iqs ->
     is_Some (user_answers s !! i) -> is_Some (well_formed_question q)) ->
  outcome (mfor iqs show_answer s) = Ok tt /\
  final (mfor iqs show_answer s) = s /\
  length (shown_correct (trace (mfor iqs show_answer s)))
  = length (List.filter (answered_correctly (user_answers s)) iqs).
Proof.
  induction iqs as [|[i q] iqs IH]; intros H; [done|].
  destruct (show_answer_run s i q) as (Ho & Hf & Hl).
  { apply H. by left. }
  destruct IH as (Ho' & Hf' & Hl').
  { intros i' q' Hin. apply H. by right. }
  cbn [mfor]. rewrite outcome_bind, final_bind, trace_bind, Ho, Hf.
  split_and!; [done..|].
  rewrite shown_correct_app, length_app, Hl, Hl'. cbn [List.filter].
  by destruct (answered_correctly _ _).
Qed.

(** In a graded state the score is shown without an exception. *)
Lemma show_score_ends w s sc :
  quiz_wf s -> quiz_score s = Some sc ->
  ends (show_score w sc) s
    (if retake_clicked w then Raise RerunException else Ok tt)
    (if retake_clicked w then cleared s else s).
Proof.
  intros [Hshape Hwf] Hsc. rewrite Hsc in Hwf.
  destruct Hwf as (Hne & _ & [w' Ha] & _).
  unfold quiz_items in *.
  destruct Hshape as [Hq|[items Hq]]; rewrite Hq in *; [done|].
  unfold show_score. ends_step. rewrite Hq. simpl py_len. simpl py_iter.
  do 3 ends_step. eapply ends_bind.
  - apply ends_mfor. intros [i q] Hin. apply elem_of_enumerate in Hin.
    apply show_answer_ends. rewrite Ha. intros Hi.
    apply form_answers_dict in Hi as [d Hd]. by simplify_eq.
  - by destruct (retake_clicked w).
Qed.

(** X12. The score is shown without an exception and its breakdown
    agrees with it: in every state of a session that holds a score,
    the block that shows it ends normally, or with the request for a
    rerun and the quiz discarded when the retake button was clicked;
    it shows the header with that score and the number of items, and
    then marks as correct exactly as many answers as the score says. *)
Theorem breakdown_agrees_with_score runs w sc :
  quiz_score (run_session runs) = Some sc ->
  outcome (show_score w sc (run_session runs))
  = (if retake_clicked w then Raise RerunException else Ok tt) /\
  final (show_score w sc (run_session runs))
  = (if retake_clicked w then cleared (run_session runs)
     else run_session runs) /\
  exists rest,
    trace (show_score w sc (run_session runs))
    = (run_session runs,
       ScoreHeader sc (length (quiz_items (run_session runs)))) :: rest /\
    Z.of_nat (length (shown_correct rest)) = sc.
Proof.
  intros Hsc. set (s := run_session runs) in *.
  destruct (reachable_wf s) as [Hwf _]; [by exists runs|].
  destruct (show_score_ends w s sc Hwf Hsc) as [Hend Hfin].
  split; [done|]. split; [done|]. clear Hend Hfin.
  destruct Hwf as [Hshape Hwf].
  rewrite Hsc in Hwf. destruct Hwf as (Hne & _ & [w' Ha] & Hcount).
  unfold quiz_items in *.
  destruct Hshape as [Hq|[items Hq]]; rewrite Hq in *; [done|].
  destruct (show_answers_run s (enumerate items)) as (Ho & Hf & Hl).
  { intros i q Hin. apply elem_of_enumerate in Hin.
    rewrite Ha, form_answers_lookup, Hin.
    by destruct (well_formed_question q) as [[question options]|]. }
  unfold show_score. rewrite trace_bind. cbn [trace get outcome final fst snd].
  rewrite Hq. cbn [py_len py_iter].
  rewrite trace_bind. cbn [trace lift outcome final fst snd].
  rewrite trace_bind. cbn [trace emit outcome final fst snd].
  rewrite trace_bind. cbn [trace lift outcome final fst snd].
  rewrite trace_bind, Ho, Hf. cbn [app].
  eexists. split; [reflexivity|].
  rewrite shown_correct_app, length_app, Hl.
  assert (shown_correct
            (trace ((if retake_clicked w then take_another_quiz
                     else mret tt) s))
          = []) as -> by (by destruct (retake_clicked w)).
  rewrite Hcount. unfold count_correct. simpl. lia.
Qed.

Lemma breakdown_agrees_with_score_witness :
  let w := sample_widgets false false in
  let s := run_session sample_session in
  outcome (show_score w 1 s) = Ok tt /\
  final (show_score w 1 s) = s /\
  exists rest,
    trace (show_score w 1 s)
    = (s, ScoreHeader 1 (length (quiz_items s))) :: rest /\
    Z.of_nat (length (shown_correct rest)) = 1.
Proof.
  intros w s.
  apply (breakdown_agrees_with_score sample_session w 1).
  vm_compute. reflexivity.
Defined.

(** ** Runs without a crash *)

Lemma safe_bind {A B} P (m : M A) (k : A -> M B) :
  safe P m -> (forall a, safe P (k a)) -> safe P (mbind m k).
Proof.
  intros Hm Hk s Hs. destruct (Hm s Hs) as [Hf Ho].
  rewrite outcome_bind, final_bind.
  destruct (outcome (m s)) as [a|e]; [|done]. by apply Hk.
Qed.

Lemma safe_ends {A} (P : session_state -> Prop) (m : M A) :
  (forall s, P s -> exists o s',
     ends m s o s' /\ P s' /\
     match o with Ok _ => True | Raise e => e = RerunException end) ->
  safe P m.
Proof.
  intros H s Hs. destruct (H s Hs) as (o & s' & [Ho Hf] & HP & He).
  by rewrite Ho, Hf.
Qed.

Lemma objects_inv_with_history h s :
  objects_inv s -> Forall (fun t => parts t <> []) h ->
  objects_inv (with_history h s).
Proof. intros (Hwf & _ & Hd) Hh. by split_and!. Qed.

Lemma objects_inv_fresh s l :
  chat_ok s -> Forall (fun q => is_dict q = true) l ->
  objects_inv (with_questions (VList l) (cleared s)).
Proof.
  intros Hc Hl. split_and!; [|done..]. apply quiz_wf_fresh; simpl; eauto.
Qed.

Lemma objects_inv_none s :
  chat_ok s -> objects_inv (with_questions VNone (cleared s)).
Proof.
  intros Hc. split_and!; [|done|apply Forall_nil_2].
  apply quiz_wf_fresh; simpl; eauto.
Qed.

Lemma safe_tab1 gem w : safe objects_inv (tab1 gem w).
Proof.
  intros s Hs. pose proof Hs as (Hwf & Hc & Hd).
  destruct (tab1_run gem w s Hc) as (-> & -> & _).
  destruct (chat_input w) as [[|c p]|]; [done| |done].
  rewrite chat_send_run. cbv zeta.
  destruct (gem _) as [[|c' t]|e]; unfold outcome, final; simpl;
    (split; [|done]); (apply objects_inv_with_history; [done|]);
    apply Forall_app; (split; [done|]); by repeat constructor.
Qed.

Lemma safe_generate_block gem w :
  replies_with_objects gem ->
  safe objects_inv (if generate_clicked w then generate_quiz gem w
                    else mret tt).
Proof.
  intros Hgem s Hs. destruct (generate_clicked w); [|done].
  pose proof Hs as (Hwf & Hc & Hd).
  destruct (topic w) as [|c t] eqn:Ht.
  { unfold generate_quiz. by rewrite Ht. }
  rewrite generate_quiz_run by (by rewrite Ht). cbv zeta.
  assert (objects_inv (cleared s)) as Hcl.
  { apply (objects_inv_fresh s []); [done|apply Forall_nil_2]. }
  destruct (gem (quiz_request (topic w))) as [[|c' raw]|e] eqn:Hg;
    [done| |done].
  destruct (clean_json_response_final (c' :: raw) (cleared s)) as [Hf _].
  pose proof (fun l => Hgem _ _ _ l (cleared s) Hg) as Hobj.
  destruct (clean_json_response_value (c' :: raw) (cleared s))
    as [Ho|[l Ho]]; rewrite Ho in Hobj;
    unfold outcome, final in *;
    destruct (clean_json_response _ _) as [[o s1] tr];
    simpl in *; subst o s1; simpl; (split; [|done]).
  - by apply objects_inv_none.
  - apply objects_inv_fresh; [done|]. by apply Hobj.
Qed.

Lemma safe_form_block w :
  safe objects_inv
    (let* s := get in
     if py_truthy (quiz_questions s) then quiz_form w else mret tt).
Proof.
  intros s Hs. pose proof Hs as ([Hshape Hwf] & Hc & Hd).
  rewrite outcome_bind, final_bind. cbn [get outcome final fst snd].
  destruct (py_truthy (quiz_questions s)) eqn:Ht; [|done].
  unfold quiz_items in Hd.
  destruct Hshape as [Hq|[items Hq]]; rewrite Hq in *; [done|].
  assert (items <> []) as Hne by (by destruct items).
  assert (Forall (fun q => draws q = true) items) as Hdr.
  { eapply Forall_impl; [exact Hd|]. intros q. apply draws_dict. }
  pose proof (quiz_form_run w s items Hq) as Hrun.
  rewrite (render_form_draws w s items Hq Hdr) in Hrun.
  unfold outcome at 1 in Hrun. simpl in Hrun.
  destruct Hrun as (_ & _ & Hrun).
  destruct (submit_clicked w); destruct Hrun as [-> ->]; [|done].
  split; [|done]. split_and!; [by apply quiz_wf_graded|done|].
  unfold quiz_items, graded. simpl. by rewrite Hq.
Qed.

Lemma safe_score_block w :
  safe objects_inv
    (let* s := get in
     match quiz_score s with
     | Some score => show_score w score
     | None => mret tt
     end).
Proof.
  intros s Hs. pose proof Hs as (Hwf & Hc & Hd).
  rewrite outcome_bind, final_bind. cbn [get outcome final fst snd].
  destruct (quiz_score s) as [sc|] eqn:Hsc; [|done].
  destruct (show_score_ends w s sc Hwf Hsc) as [-> ->].
  destruct (retake_clicked w); [|done]. split; [|done].
  apply (objects_inv_fresh s []); [done|apply Forall_nil_2].
Qed.

Lemma safe_tab3 w : safe objects_inv (tab3 w).
Proof.
  intros s Hs. pose proof Hs as (Hwf & Hc & Hd). unfold tab3.
  destruct (clear_clicked w).
  - unfold outcome, final. simpl. split; [|done].
    apply objects_inv_with_history; [done|apply Forall_nil_2].
  - rewrite outcome_bind, final_bind. cbn [mret outcome final fst snd].
    rewrite outcome_bind, final_bind. cbn [get outcome final fst snd].
    destruct (chat_history s) eqn:Hh; [done|].
    by destruct (show_messages_ends s Hc) as [-> ->].
Qed.

Lemma safe_main gem w :
  replies_with_objects gem -> safe objects_inv (main gem w).
Proof.
  intros Hgem. unfold main, tab2.
  apply safe_bind; [apply safe_tab1|]. intros _.
  apply safe_bind; [|intros _; apply safe_tab3].
  apply safe_bind; [by apply safe_generate_block|]. intros _.
  apply safe_bind; [apply safe_form_block|]. intros _.
  apply safe_score_block.
Qed.

Lemma objects_inv_run_session runs :
  Forall (fun gw : gemini * widgets => replies_with_objects gw.1) runs ->
  objects_inv (run_session runs).
Proof.
  unfold run_session.
  induction runs as [|[gem w] runs IH] using rev_ind; intros H.
  - apply (objects_inv_fresh initial_state []); apply Forall_nil_2.
  - apply Forall_app in H as [Hruns Hgw]. rewrite foldl_app. simpl.
    rewrite Forall_singleton in Hgw.
    by destruct (safe_main gem w Hgw _ (IH Hruns)) as [Hinv _].
Qed.

(** X13. A session never crashes as long as the service answers quiz
    requests with arrays of objects: whatever else the service does,
    failed calls and replies that are not JSON included, and whatever
    the widgets hold, every run of the session ends normally or with
    the request for a rerun, never with another exception, and the
    items of the stored quiz are objects. *)
Theorem session_without_crash runs gem w :
  Forall (fun gw : gemini * widgets => replies_with_objects gw.1) runs ->
  replies_with_objects gem ->
  (outcome (main gem w (run_session runs)) = Ok tt \/
   outcome (main gem w (run_session runs)) = Raise RerunException) /\
  Forall (fun q => is_dict q = true)
    (quiz_items (final (main gem w (run_session runs)))).
Proof.
  intros Hruns Hgem.
  destruct (safe_main gem w Hgem (run_session runs)) as [(_ & _ & Hd) Ho];
    [by apply objects_inv_run_session|].
  split; [|done]. destruct (outcome _) as [[]|e]; [by left|right; by subst].
Qed.

Lemma session_without_crash_witness :
  let failing : gemini := fun _ => ApiError (lit "503 unavailable") in
  let runs := [(sample_gemini, sample_widgets true false);
               (failing, sample_widgets true true)] in
  (outcome (main sample_gemini (sample_widgets false true) (run_session runs))
   = Ok tt \/
   outcome (main sample_gemini (sample_widgets false true) (run_session runs))
   = Raise RerunException) /\
  Forall (fun q => is_dict q = true)
    (quiz_items (final (main sample_gemini (sample_widgets false true)
                          (run_session runs)))).
Proof.
  intros failing runs.
  assert (replies_with_objects sample_gemini) as Hsample.
  { intros prompt config raw l s [= <-] Ho.
    rewrite (clean_json_response_outcome _ s initial_state) in Ho.
    vm_compute in Ho. injection Ho as <-. by repeat constructor. }
  apply (session_without_crash runs sample_gemini (sample_widgets false true));
    [|exact Hsample].
  repeat constructor; [exact Hsample|]. intros prompt config raw l s.
  discriminate.
Defined.

(** ** Runs in which the chat and the generator are not used *)

Lemma quiet_main_unasked gem w :
  chat_input w = None -> generate_clicked w = false \/ topic w = [] ->
  quiet (main gem w).
Proof.
  intros Hi Hg. unfold main, tab1, tab2. rewrite Hi.
  assert (quiet (if generate_clicked w then generate_quiz gem w
                 else mret tt)) as Hgen.
  { destruct Hg as [->|Ht]; [apply quiet_mret|].
    destruct (generate_clicked w); [|apply quiet_mret].
    unfold generate_quiz. rewrite Ht. quiet_step. }
  repeat first [ apply Hgen | apply quiet_show_messages
               | apply quiet_quiz_form | apply quiet_show_score
               | apply quiet_tab3 | quiet_step ].
Qed.

(** X14. A run in which no widget is used, such as the run a rerun
    starts, changes nothing and sends nothing: the session state after
    it is the one before, in every state, even one in which the page
    cannot be drawn. *)
Theorem idle_run_changes_nothing gem w s :
  idle w ->
  final (main gem w s) = s /\ calls (trace (main gem w s)) = [].
Proof.
  intros Hidle. split; [by apply main_idle|].
  destruct Hidle as (Hi & Hg & _). apply quiet_main_unasked; by eauto.
Qed.

Lemma idle_run_changes_nothing_witness :
  final (main sample_gemini (sample_widgets false false)
           (run_session sample_session))
  = run_session sample_session /\
  calls (trace (main sample_gemini (sample_widgets false false)
                  (run_session sample_session))) = [].
Proof.
  apply (idle_run_changes_nothing sample_gemini (sample_widgets false false)
           (run_session sample_session)).
  by repeat split.
Defined.

(** The quiz tab when none of its buttons is used. *)
Lemma tab2_unused_ends gem w s :
  objects_inv s -> generate_clicked w = false -> submit_clicked w = false ->
  retake_clicked w = false -> ends (tab2 gem w) s (Ok tt) s.
Proof.
  intros (Hwf & Hc & Hd) Hg Hs Hr. unfold tab2. rewrite Hg. ends_step.
  eapply ends_bind.
  - ends_step.
    destruct (py_truthy (quiz_questions s)) eqn:Ht; [|apply ends_mret].
    unfold quiz_items in Hd.
    destruct Hwf as [[Hq|[items Hq]] _]; rewrite Hq in *; [done|].
    pose proof (quiz_form_run w s items Hq) as Hrun.
    rewrite (render_form_dict_items w s items Hq Hd), Hs in Hrun.
    unfold outcome at 1 in Hrun. simpl in Hrun.
    destruct Hrun as (_ & _ & Ho & Hf). by split.
  - ends_step. destruct (quiz_score s) as [sc|] eqn:Hsc; [|apply ends_mret].
    pose proof (show_score_ends w s sc Hwf Hsc) as H. by rewrite Hr in H.
Qed.

(** X15. Clearing the chat history leaves the quiz alone: from a state
    of a session whose quiz items are objects, a run in which only the
    clear button is used ends with the request for a rerun, with an
    empty chat history and the quiz questions, answers and score as
    they were, and sends nothing to the service. *)
Theorem clear_history_keeps_quiz gem w s :
  reachable s -> Forall (fun q => is_dict q = true) (quiz_items s) ->
  chat_input w = None -> generate_clicked w = false ->
  submit_clicked w = false -> retake_clicked w = false ->
  clear_clicked w = true ->
  outcome (main gem w s) = Raise RerunException /\
  final (main gem w s) = with_history [] s /\
  calls (trace (main gem w s)) = [].
Proof.
  intros Hreach Hd Hi Hg Hs Hr Hc.
  apply reachable_wf in Hreach as [Hwf Hok].
  split_and!; [| |apply quiet_main_unasked; by eauto].
  - unfold main. rewrite outcome_bind.
    destruct (tab1_no_input gem w s Hok Hi) as [-> ->].
    rewrite outcome_bind.
    destruct (tab2_unused_ends gem w s) as [-> ->]; [done..|].
    unfold tab3. by rewrite Hc.
  - unfold main. rewrite final_bind.
    destruct (tab1_no_input gem w s Hok Hi) as [-> ->].
    rewrite final_bind.
    destruct (tab2_unused_ends gem w s) as [-> ->]; [done..|].
    unfold tab3. by rewrite Hc.
Qed.

Lemma clear_history_keeps_quiz_witness :
  let w := {| chat_input := None; topic := [];
              generate_clicked := false; radio_choice := fun _ => 0%nat;
              submit_clicked := false; retake_clicked := false;
              clear_clicked := true |} in
  let s := run_session sample_session in
  outcome (main sample_gemini w s) = Raise RerunException /\
  final (main sample_gemini w s) = with_history [] s /\
  calls (trace (main sample_gemini w s)) = [].
Proof.
  intros w s.
  apply (clear_history_keeps_quiz sample_gemini w s);
    [by exists sample_session|vm_compute; by repeat constructor
    |reflexivity..].
Defined.

(** X16. The tabs keep to their part of the session state: the quiz
    tab never changes the chat history, and the chat tab and the
    history tab never change the quiz questions, the answers or the
    score, however they end. *)
Theorem tabs_keep_to_their_state gem w s :
  chat_history (final (tab2 gem w s)) = chat_history s /\
  (quiz_questions (final (tab1 gem w s)) = quiz_questions s /\
   user_answers (final (tab1 gem w s)) = user_answers s /\
   quiz_score (final (tab1 gem w s)) = quiz_score s) /\
  (quiz_questions (final (tab3 w s)) = quiz_questions s /\
   user_answers (final (tab3 w s)) = user_answers s /\
   quiz_score (final (tab3 w s)) = quiz_score s).
Proof.
  set (R := fun s' => quiz_questions s' = quiz_questions s /\
                      user_answers s' = user_answers s /\
                      quiz_score s' = quiz_score s).
  assert (chat_blind R) as HR by (by intros h s' H).
  split_and!.
  - pose proof (preserves_tab2_quiz_blind
                  (fun s' => chat_history s' = chat_history s) gem w) as H.
    specialize (H (fun q a sc s' Hs' => Hs') s eq_refl).
    by destruct (outcome _).
  - pose proof (preserves_tab1 R gem w HR s) as H.
    destruct (outcome _); by apply H.
  - pose proof (preserves_tab1 R gem w HR s) as H.
    destruct (outcome _); by apply H.
  - pose proof (preserves_tab1 R gem w HR s) as H.
    destruct (outcome _); by apply H.
  - pose proof (preserves_tab3 R w HR s) as H.
    destruct (outcome _); by apply H.
  - pose proof (preserves_tab3 R w HR s) as H.
    destruct (outcome _); by apply H.
  - pose proof (preserves_tab3 R w HR s) as H.
    destruct (outcome _); by apply H.
Qed.

(** ** The generator and its messages *)

(** A list comes out of the sanitizer without a message. *)
Lemma clean_json_response_list_silent raw s l :
  outcome (clean_json_response raw s) = Ok (VList l) ->
  trace (clean_json_response raw s) = [].
Proof.
  unfold clean_json_response.
  destruct (negb (find 91 raw =? -1) && negb (rfind 93 raw =? -1)); [|done].
  destruct (json_loads _) as [v|e] eqn:E; [done|].
  by apply json_loads_raises in E as ->.
Qed.

(** X17. The generator reports every failure of a generation whose
    reply has text: with a topic, a generation that shows no error
    either stored a non-empty list that the sanitizer found in the
    reply, as the new quiz with no answers and no score, or it got a
    reply with no text at all and left the quiz empty. *)
Theorem generate_quiz_silent_only_on_success_or_empty_reply gem w s :
  topic w <> [] ->
  errors (trace (generate_quiz gem w s)) = [] ->
  (gem (quiz_request (topic w)) = Text [] /\
   final (generate_quiz gem w s) = cleared s) \/
  exists raw q items,
    gem (quiz_request (topic w)) = Text raw /\ raw <> [] /\
    outcome (clean_json_response raw s) = Ok (VList (q :: items)) /\
    final (generate_quiz gem w s)
    = with_questions (VList (q :: items)) (cleared s).
Proof.
  intros Ht. rewrite generate_quiz_run by done. cbv zeta.
  destruct (gem (quiz_request (topic w))) as [[|c raw]|e] eqn:Hg.
  - intros _. by left.
  - destruct (clean_json_response_final (c :: raw) (cleared s)) as [Hf _].
    pose proof (clean_json_response_outcome (c :: raw) s (cleared s)) as Hs.
    destruct (clean_json_response_value (c :: raw) (cleared s))
      as [Ho|[l Ho]]; rewrite Ho in Hs;
      unfold outcome, final, trace in Hf, Ho;
      destruct (clean_json_response (c :: raw) (cleared s)) as [[o s1] tr];
      simpl in Hf, Ho; subst o s1; unfold final, trace; simpl.
    + rewrite errors_app. intros H. apply app_eq_nil in H as [_ H]. done.
    + destruct l as [|q items].
      * rewrite errors_app. intros H. apply app_eq_nil in H as [_ H]. done.
      * intros _. right. by exists (c :: raw), q, items.
  - done.
Qed.

Lemma generate_quiz_silent_only_on_success_or_empty_reply_witness :
  let gem : gemini := fun _ => Text fenced_reply in
  let w := sample_widgets true false in
  (gem (quiz_request (topic w)) = Text [] /\
   final (generate_quiz gem w initial_state) = cleared initial_state) \/
  exists raw q items,
    gem (quiz_request (topic w)) = Text raw /\ raw <> [] /\
    outcome (clean_json_response raw initial_state)
    = Ok (VList (q :: items)) /\
    final (generate_quiz gem w initial_state)
    = with_questions (VList (q :: items)) (cleared initial_state).
Proof.
  intros gem w.
  apply (generate_quiz_silent_only_on_success_or_empty_reply gem w
           initial_state); [discriminate|vm_compute; reflexivity].
Defined.

(** ** The chat history on the page *)

Lemma show_messages_run s :
  chat_ok s -> show_messages s = (Ok tt, s, shown_history s).
Proof.
  intros Hok. unfold show_messages, shown_history, mbind, get. simpl.
  unfold chat_ok in Hok.
  induction (chat_history s) as [|t h IH]; [done|].
  apply Forall_cons in Hok as [Ht Hh]. cbn [mfor map].
  unfold mbind at 1. unfold first_part.
  destruct (parts t) as [|part rest]; [done|].
  cbn [emit]. destruct (mfor h _ s) as [[o s'] l] eqn:E.
  specialize (IH Hh). injection IH as -> -> ->. done.
Qed.

(** X18. The chat history is always shown in full: in every state of a
    session the chat tab and the history tab list one message for
    each stored turn, in order, with its role and its text, without an
    exception; the history tab shows its note instead when the history
    is empty. *)
Theorem history_is_shown_in_full runs gem w :
  let s := run_session runs in
  chat_input w = None -> clear_clicked w = false ->
  tab1 gem w s = (Ok tt, s, shown_history s) /\
  tab3 w s = (Ok tt, s,
              match chat_history s with
              | [] => [(s, StInfoHistoryEmpty)]
              | _ => shown_history s
              end).
Proof.
  intros s Hi Hc.
  destruct (reachable_wf s) as [_ Hok]; [by exists runs|].
  pose proof (show_messages_run s Hok) as Hrun. split.
  - unfold tab1, mbind. rewrite Hrun, Hi. simpl. by rewrite app_nil_r.
  - unfold tab3. rewrite Hc. unfold mbind at 1. cbn [mret].
    unfold mbind, get. destruct (chat_history s) eqn:Hh; [done|].
    by rewrite Hrun.
Qed.

Lemma history_is_shown_in_full_witness :
  let gem : gemini := fun _ => Text (lit "Hello!") in
  let chat := {| chat_input := Some (lit "Hi"); topic := [];
                 generate_clicked := false; radio_choice := fun _ => 0%nat;
                 submit_clicked := false; retake_clicked := false;
                 clear_clicked := false |} in
  let w := sample_widgets false false in
  let s := run_session [(gem, chat)] in
  tab1 gem w s = (Ok tt, s, shown_history s) /\
  tab3 w s = (Ok tt, s,
              match chat_history s with
              | [] => [(s, StInfoHistoryEmpty)]
              | _ => shown_history s
              end).
Proof.
  intros gem chat w s.
  apply (history_is_shown_in_full [(gem, chat)] gem w); reflexivity.
Defined.

(** ** The head of the script *)

Lemma init_session_store s : init_session (store s) = s.
Proof. by destruct s. Qed.

(** X19. The page runs exactly with a usable API key. The
    configuration block lets a run through if and only if the key is
    found, is not empty and is accepted by the client; every run is
    then the page on the initialised session state, and the session
    state after a sequence of runs is the one the page alone reaches
    from the initial state. In every other case each run stops before
    the page: nothing is sent to the service and the session store
    stays as it was found, empty in a new session. A key that is
    missing and a key that is empty are told apart by their
    messages. *)
Theorem script_runs_page_only_with_key secret genai_configure :
  (forall k,
     configure_api secret genai_configure = Configured k <->
     secret = Done k /\ py_truthy k = true /\ genai_configure k = Done tt) /\
  (forall k,
     configure_api secret genai_configure = Configured k ->
     (forall gem w st,
        script secret genai_configure gem w st
        = PageRun (main gem w (init_session st))) /\
     forall runs,
       init_session (script_session secret genai_configure runs)
       = run_session runs) /\
  ((forall k, configure_api secret genai_configure <> Configured k) ->
   (forall gem w st,
      script_calls (script secret genai_configure gem w st) = [] /\
      stored_after st (script secret genai_configure gem w st) = st) /\
   forall runs, script_session secret genai_configure runs = empty_store) /\
  (forall message,
     secret = Failed KeyError message ->
     configure_api secret genai_configure = Stopped ApiKeyNotFound) /\
  (forall k,
     secret = Done k -> py_truthy k = false ->
     configure_api secret genai_configure = Stopped ApiKeyEmpty).
Proof.
  split_and!.
  - intros k. split.
    + unfold configure_api, startup_handler. intros Hcfg.
      destruct secret as [k'|e m]; [|by destruct e].
      destruct (py_truthy k') eqn:Hk; [|done]. simpl in Hcfg.
      destruct (genai_configure k') as [[]|e m] eqn:Hg; [|by destruct e].
      by injection Hcfg as <-.
    + intros (-> & Hk & Hg). unfold configure_api. by rewrite Hk, Hg.
  - intros k Hcfg.
    assert (forall gem w st,
              script secret genai_configure gem w st
              = PageRun (main gem w (init_session st))) as Hrun.
    { intros gem w st. unfold script. by rewrite Hcfg. }
    split; [done|]. intros runs. unfold script_session, run_session.
    induction runs as [|[gem w] runs IH] using rev_ind; [done|].
    rewrite !foldl_app. cbn [foldl]. rewrite Hrun.
    cbn [stored_after fst snd]. by rewrite init_session_store, IH.
  - intros Hno.
    assert (forall gem w st,
              script_calls (script secret genai_configure gem w st) = [] /\
              stored_after st (script secret genai_configure gem w st) = st)
      as Hstop.
    { intros gem w st. unfold script.
      destruct (configure_api secret genai_configure) as [k|m|e] eqn:Hcfg;
        [by destruct (Hno k)|done..]. }
    split; [done|]. intros runs. unfold script_session.
    induction runs as [|[gem w] runs IH] using rev_ind; [done|].
    rewrite foldl_app. cbn [foldl]. by rewrite (proj2 (Hstop _ _ _)).
  - by intros message ->.
  - intros k -> Hk. unfold configure_api. by rewrite Hk.
Qed.

Lemma script_runs_page_only_with_key_witness :
  let secret : attempt value := Done (VStr (lit "key")) in
  let genai_configure : value -> attempt unit := fun _ => Done tt in
  configure_api secret genai_configure = Configured (VStr (lit "key")) /\
  init_session (script_session secret genai_configure sample_session)
  = run_session sample_session.
Proof.
  intros secret genai_configure.
  assert (configure_api secret genai_configure = Configured (VStr (lit "key")))
    as H.
  { apply (proj1 (script_runs_page_only_with_key secret genai_configure)).
    by split_and!. }
  split; [exact H|].
  apply (proj1 (proj2 (script_runs_page_only_with_key secret genai_configure))
           (VStr (lit "key")) H).
Defined.

(** ** More runs of the quiz tab *)

(** X20. A click on the generate button without a topic only shows a
    warning: a run in which nothing else is used keeps the session
    state as it is, the quiz of an earlier generation and its score
    included, and sends nothing to the service. *)
Theorem generate_without_topic_keeps_quiz gem w s :
  chat_input w = None -> generate_clicked w = true -> topic w = [] ->
  submit_clicked w = false -> retake_clicked w = false ->
  clear_clicked w = false ->
  final (main gem w s) = s /\
  calls (trace (main gem w s)) = [] /\
  trace (generate_quiz gem w s) = [(s, StWarningEnterTopic)].
Proof.
  intros Hi Hg Ht Hs Hr Hc. split_and!.
  - assert (preserves (eq s) (main gem w)) as H.
    { unfold main. apply preserves_bind; [by apply preserves_tab1_unused|].
      intros _.
      apply preserves_bind; [|intros _; by apply preserves_tab3_unused].
      unfold tab2, generate_quiz. rewrite Hg, Ht.
      apply preserves_bind; [apply preserves_emit|]. intros _.
      apply preserves_bind; [by apply preserves_form_block_unused|].
      intros _. by apply preserves_score_block_unused. }
    specialize (H s eq_refl). by destruct (outcome _).
  - apply quiet_main_unasked; by eauto.
  - unfold generate_quiz. by rewrite Ht.
Qed.

Lemma generate_without_topic_keeps_quiz_witness :
  let w := {| chat_input := None; topic := [];
              generate_clicked := true; radio_choice := fun _ => 0%nat;
              submit_clicked := false; retake_clicked := false;
              clear_clicked := false |} in
  let s := run_session sample_session in
  final (main sample_gemini w s) = s /\
  calls (trace (main sample_gemini w s)) = [] /\
  trace (generate_quiz sample_gemini w s) = [(s, StWarningEnterTopic)].
Proof.
  intros w s.
  apply (generate_without_topic_keeps_quiz sample_gemini w s); reflexivity.
Defined.

(** X21. Grading looks at the questions and the selections only: for
    a quiz of objects the answers and the score a submit stores do not
    depend on the answers and the score stored before, so submitting
    the same selections again changes nothing. *)
Theorem submit_is_idempotent w s s' items :
  quiz_questions s = VList items -> quiz_questions s' = VList items ->
  Forall (fun q => is_dict q = true) items ->
  submit_clicked w = true ->
  user_answers (final (quiz_form w s')) = user_answers (final (quiz_form w s))
  /\ quiz_score (final (quiz_form w s')) = quiz_score (final (quiz_form w s))
  /\ final (quiz_form w (final (quiz_form w s))) = final (quiz_form w s).
Proof.
  intros Hq Hq' Hd Hs.
  assert (forall s0, quiz_questions s0 = VList items ->
            final (quiz_form w s0) = graded (form_answers w items) s0) as H.
  { intros s0 Hq0.
    destruct (quiz_form_submit w s0 items (form_answers w items) Hq0 Hs)
      as [_ ->]; [|done].
    by rewrite (render_form_dict_items w s0 items Hq0 Hd). }
  rewrite (H s Hq), (H s' Hq'). rewrite H by done.
  unfold graded, quiz_items. simpl. by rewrite Hq, Hq'.
Qed.

Lemma submit_is_idempotent_witness :
  let w := sample_widgets false true in
  let s := with_questions (VList [one_question]) initial_state in
  let s' := run_session sample_session in
  user_answers (final (quiz_form w s')) = user_answers (final (quiz_form w s))
  /\ quiz_score (final (quiz_form w s')) = quiz_score (final (quiz_form w s))
  /\ final (quiz_form w (final (quiz_form w s))) = final (quiz_form w s).
Proof.
  intros w s s'.
  apply (submit_is_idempotent w s s' [one_question]);
    [reflexivity|vm_compute; reflexivity|by repeat constructor|reflexivity].
Defined.

(** ** How a run changes the chat history *)

(** The quiz tab and the history tab keep the chat history or empty
    it. *)
Lemma tab2_tab3_history gem w s :
  chat_history (final ((tab2 gem w ;; tab3 w) s)) = chat_history s \/
  chat_history (final ((tab2 gem w ;; tab3 w) s)) = [].
Proof.
  set (R := fun s' => chat_history s' = chat_history s \/ chat_history s' = []).
  assert (preserves R (tab2 gem w ;; tab3 w)) as H.
  { apply preserves_bind.
    - apply preserves_tab2_quiz_blind. by intros q a sc s' Hs'.
    - intros _. unfold tab3.
      repeat first [ apply preserves_modify; intros s' _; by right
                   | apply preserves_show_messages
                   | preserves_step ]. }
  specialize (H s (or_introl eq_refl)). by destruct (outcome _).
Qed.

(** X22. A run never edits, reorders or drops single turns of the chat
    history: after a run from a state of a session the history is
    empty, or it is the history before, followed by nothing, by the
    user turn of the chat input, or by that user turn and the model
    turn with the text of the reply. *)
Theorem run_appends_one_exchange_or_clears gem w s :
  reachable s ->
  chat_history (final (main gem w s)) = [] \/
  chat_history (final (main gem w s)) = chat_history s \/
  exists p,
    chat_input w = Some p /\ p <> [] /\
    (chat_history (final (main gem w s)) = chat_history s ++ [user_turn p] \/
     exists r,
       gem (chat_request s p) = Text r /\ r <> [] /\
       chat_history (final (main gem w s))
       = chat_history s ++ [user_turn p; model_turn r]).
Proof.
  intros Hreach. apply reachable_wf in Hreach as [_ Hok].
  unfold main. rewrite final_bind.
  destruct (tab1_run gem w s Hok) as (Ho & Hf & _). rewrite Ho, Hf.
  destruct (chat_input w) as [[|c p]|] eqn:Hi.
  - cbn [mret outcome final fst snd].
    destruct (tab2_tab3_history gem w s) as [->| ->]; eauto.
  - rewrite chat_send_run. cbv zeta.
    destruct (gem (chat_request s (c :: p))) as [[|c' t]|e] eqn:Hg;
      cbn [outcome final fst snd].
    + destruct (tab2_tab3_history gem w
                  (with_history (chat_history s ++ [user_turn (c :: p)]) s))
        as [->| ->]; [|by left].
      right. right. exists (c :: p). split_and!; [done..|]. by left.
    + right. right. exists (c :: p). split_and!; [done..|].
      right. by exists (c' :: t).
    + destruct (tab2_tab3_history gem w
                  (with_history (chat_history s ++ [user_turn (c :: p)]) s))
        as [->| ->]; [|by left].
      right. right. exists (c :: p). split_and!; [done..|]. by left.
  - cbn [mret outcome final fst snd].
    destruct (tab2_tab3_history gem w s) as [->| ->]; eauto.
Qed.

Lemma run_appends_one_exchange_or_clears_witness :
  let gem : gemini := fun _ => Text (lit "Hello!") in
  let w := {| chat_input := Some (lit "Hi"); topic := [];
              generate_clicked := false; radio_choice := fun _ => 0%nat;
              submit_clicked := false; retake_clicked := false;
              clear_clicked := false |} in
  let s := run_session sample_session in
  chat_history (final (main gem w s)) = [] \/
  chat_history (final (main gem w s)) = chat_history s \/
  exists p,
    chat_input w = Some p /\ p <> [] /\
    (chat_history (final (main gem w s)) = chat_history s ++ [user_turn p] \/
     exists r,
       gem (chat_request s p) = Text r /\ r <> [] /\
       chat_history (final (main gem w s))
       = chat_history s ++ [user_turn p; model_turn r]).
Proof.
  intros gem w s.
  apply (run_appends_one_exchange_or_clears gem w s).
  by exists sample_session.
Defined.
